(** * Investment tracker: merge engine, price synchronizer, profit sharing

    A shallow embedding of the portfolio engine of the investment tracking
    dashboard:

    - [types.ts] ([Holding], [PortfolioSummary])   -> [Module Types]
    - [App.tsx] ([handleAddHoldings], [summary])   -> [Module App]
    - [services/marketDataService.ts] ([fetchFundData], [refreshMarketPrices])
                                                   -> [Module MarketDataService]
    - [components/ProfitSharing.tsx] ([calculation])
                                                   -> [Module ProfitSharing]
    - [components/AddAssetForm.tsx] ([handleBatchSubmit])
                                                   -> [Module AddAssetForm]
    - [components/HoldingsTable.tsx] ([handleSort], [filtered], [sorted])
                                                   -> [Module HoldingsTable]

    [Module App] also holds [handleUpdateHolding], [handleDelete], the
    merge-back of fresh prices, [pieData] and [barData];
    [Module MarketDataService] also holds [fetchStockData].

    The network is not modelled: the synchronizer is parameterised by what
    each awaited adapter call settles to, and the fund adapter by the event
    its script load produces, and the stock adapter by the global
    variables its script leaves behind.

    Numbers.  A TypeScript [number] is idealised as an exact rational [Q]:
    rounding, infinities and signed zeros of IEEE doubles are outside the
    model.  [NaN] is modelled exactly where the source produces and tests
    it, namely as the failure value of [parseFloat] ([None]).  An optional
    field ([yesterdayPrice?], every field of a [Partial<Holding>]) is an
    [option]; [None] stands for [undefined]. *)

From Stdlib Require Import QArith Qabs Lqa.
From Stdlib Require Import Ascii String.
From stdpp Require Import base decidable option list sorting strings.

(** ** JavaScript operators used by the sources *)

Module JS.

(** [a > b] and [a < b] on numbers. *)
Definition gt (a b : Q) : bool := negb (Qle_bool a b).
Definition lt (a b : Q) : bool := negb (Qle_bool b a).
(** [a <= b] on numbers. *)
Definition le (a b : Q) : bool := Qle_bool a b.
(** [a === b] on numbers. *)
Definition eq (a b : Q) : bool := Qeq_bool a b.

(** Truthiness: a number is falsy when it is [0] (or [NaN], which [Q]
    does not contain), a string when it is empty, [undefined] always. *)
Definition truthy_number (x : Q) : bool := negb (Qeq_bool x 0).
Definition truthy_string (s : string) : bool := negb (String.eqb s "").

(** [a || b] where [a] may be [undefined] and [b] is a number. *)
Definition or_number (a : option Q) (b : Q) : Q :=
  match a with
  | Some v => if truthy_number v then v else b
  | None => b
  end.

(** [a || b] where [a] may be [undefined] and [b] is a string. *)
Definition or_string (a : option string) (b : string) : string :=
  match a with
  | Some v => if truthy_string v then v else b
  | None => b
  end.

(** [a || b] where both sides may be [undefined]. *)
Definition or_opt_string (a b : option string) : option string :=
  match a with
  | Some v => if truthy_string v then Some v else b
  | None => b
  end.

(** A number that may be [NaN]: the result of [parseFloat]. *)
Definition parsed := option Q.

(** [isNaN(x)] *)
Definition isNaN (x : parsed) : bool :=
  match x with Some _ => false | None => true end.

(** [x > b] where [x] may be [NaN]: every comparison with [NaN] is false. *)
Definition parsed_gt (x : parsed) (b : Q) : bool :=
  match x with Some v => gt v b | None => false end.

(** [s.startsWith(p)] *)
Definition startsWith (s p : string) : bool := String.prefix p s.

(** [s.split(sep)] for a separator of one character: the first field and
    the fields after it.  The result of [split] is never empty. *)
Fixpoint fields (sep : ascii) (s : string) : string * list string :=
  match s with
  | EmptyString => (EmptyString, [])
  | String c rest =>
      let '(p, ps) := fields sep rest in
      if Ascii.eqb c sep then (EmptyString, p :: ps) else (String c p, ps)
  end.

Definition split (sep : ascii) (s : string) : list string :=
  let '(p, ps) := fields sep s in p :: ps.

(** [arr[i]] for an index that the caller has checked to be in range. *)
Definition at_ (arr : list string) (i : nat) : string := default EmptyString (arr !! i).

(** [[...arr].sort(compare)].  The sort is stable, and for a consistent
    comparator its result is determined: [a] stays before [b] unless
    [compare(a, b) > 0].  It is written here as an insertion sort. *)
Fixpoint sortInsert {A} (compare : A → A → Q) (a : A) (sorted : list A) : list A :=
  match sorted with
  | [] => [a]
  | b :: rest =>
      if gt (compare a b) 0 then b :: sortInsert compare a rest
      else a :: b :: rest
  end.

Fixpoint sort {A} (compare : A → A → Q) (arr : list A) : list A :=
  match arr with
  | [] => []
  | a :: rest => sortInsert compare a (sort compare rest)
  end.

End JS.

(** ** [types.ts] *)

Module Types.

Inductive AssetType := STOCK | FUND.

#[global] Instance AssetType_eq_dec : EqDecision AssetType.
Proof. solve_decision. Defined.

Record Holding := mkHolding {
  id : string;
  name : string;
  code : string;
  type : AssetType;
  buyDate : string;
  buyPrice : Q;
  quantity : Q;
  currentPrice : Q;
  yesterdayPrice : option Q;
  priceDate : option string
}.

Record PortfolioSummary := mkSummary {
  totalCost : Q;
  totalMarketValue : Q;
  totalProfitLoss : Q;
  totalReturnRate : Q;
  totalDayProfitLoss : Q
}.

(** The identity key of a holding: [(code, type)]. *)
Definition key (h : Holding) : string * AssetType := (code h, type h).

End Types.

(** ** [App.tsx]: the position merge engine and the aggregator *)

Module App.
Import Types.

(** The predicate of [findIndex]:
    [h => h.code === incoming.code && h.type === incoming.type]. *)
Definition sameAsset (incoming h : Holding) : Prop :=
  code h = code incoming ∧ type h = type incoming.

#[global] Instance sameAsset_dec incoming h : Decision (sameAsset incoming h).
Proof. unfold sameAsset. apply _. Defined.

(** [newTotalQty > 0 ? (totalOldCost + totalNewCost) / newTotalQty : 0] *)
Definition newAvgPrice (existing incoming : Holding) : Q :=
  let totalOldCost := (buyPrice existing * quantity existing)%Q in
  let totalNewCost := (buyPrice incoming * quantity incoming)%Q in
  let newTotalQty := (quantity existing + quantity incoming)%Q in
  if JS.gt newTotalQty 0
  then ((totalOldCost + totalNewCost) / newTotalQty)%Q
  else 0%Q.

(** [{ ...existing, quantity: newTotalQty, buyPrice: newAvgPrice }] *)
Definition merged (existing incoming : Holding) : Holding :=
  {| id := id existing;
     name := name existing;
     code := code existing;
     type := type existing;
     buyDate := buyDate existing;
     buyPrice := newAvgPrice existing incoming;
     quantity := (quantity existing + quantity incoming)%Q;
     currentPrice := currentPrice existing;
     yesterdayPrice := yesterdayPrice existing;
     priceDate := priceDate existing |}.

(** The body of [newHoldings.forEach(incoming => ...)], acting on the two
    mutable locals [updatedList] and [affectedIds].  [list_find] returns
    the first index that satisfies the predicate together with the
    element [updatedList[existingIndex]]; [None] is [findIndex]'s [-1].
    The index written to is always in range. *)
Definition mergeEntry (st : list Holding * list string) (incoming : Holding)
  : list Holding * list string :=
  let '(updatedList, affectedIds) := st in
  match list_find (sameAsset incoming) updatedList with
  | Some (existingIndex, existing) =>
      (<[existingIndex := merged existing incoming]> updatedList,
       affectedIds ++ [id existing])
  | None =>
      (updatedList ++ [incoming], affectedIds ++ [id incoming])
  end.

(** [handleAddHoldings], up to the call [persistHoldings(updatedList)]:
    the list handed to [persistHoldings] (the new application state) and
    the collected [affectedIds]. *)
Definition handleAddHoldings (holdings newHoldings : list Holding)
  : list Holding * list string :=
  fold_left mergeEntry newHoldings (holdings, []).

(** [updatedList.filter(h => affectedIds.includes(h.id))] *)
Definition itemsToRefresh (st : list Holding * list string) : list Holding :=
  filter (λ h, id h ∈ st.2) st.1.

(** The statement executed for one holding on the accumulator [dayPL]:
    [if (h.yesterdayPrice) { dayPL += (h.currentPrice - h.yesterdayPrice) * h.quantity; }] *)
Definition addDayPL (dayPL : Q) (h : Holding) : Q :=
  match yesterdayPrice h with
  | Some y =>
      if JS.truthy_number y
      then (dayPL + (currentPrice h - y) * quantity h)%Q
      else dayPL
  | None => dayPL
  end.

(** The [summary] memo. *)
Definition summary (holdings : list Holding) : PortfolioSummary :=
  let cost := fold_left (λ cost h, (cost + buyPrice h * quantity h)%Q) holdings 0%Q in
  let value := fold_left (λ value h, (value + currentPrice h * quantity h)%Q) holdings 0%Q in
  let dayPL := fold_left addDayPL holdings 0%Q in
  let pl := (value - cost)%Q in
  let rate := if JS.gt cost 0 then ((pl / cost) * 100)%Q else 0%Q in
  {| totalCost := cost;
     totalMarketValue := value;
     totalProfitLoss := pl;
     totalReturnRate := rate;
     totalDayProfitLoss := dayPL |}.

(** The day profit/loss that [summary] derives from one record alone. *)
Definition dayProfitLoss (h : Holding) : Q :=
  totalDayProfitLoss (summary [h]).

(** The state update of the [.then] callback of [handleAddHoldings]:
    [currentHoldings.map(p => { const fresh = refreshedItems.find(f => f.id === p.id);
       return fresh ? { ...p, currentPrice: fresh.currentPrice,
                        yesterdayPrice: fresh.yesterdayPrice,
                        priceDate: fresh.priceDate, name: fresh.name } : p; })] *)
Definition finalMix (refreshedItems currentHoldings : list Holding) : list Holding :=
  map (λ p,
         match list_find (λ f, id f = id p) refreshedItems with
         | Some (_, fresh) =>
             {| id := id p;
                name := name fresh;
                code := code p;
                type := type p;
                buyDate := buyDate p;
                buyPrice := buyPrice p;
                quantity := quantity p;
                currentPrice := currentPrice fresh;
                yesterdayPrice := yesterdayPrice fresh;
                priceDate := priceDate fresh |}
         | None => p
         end) currentHoldings.

(** [handleUpdateHolding]: the list handed to [persistHoldings],
    [holdings.map(h => h.id === updatedHolding.id ? updatedHolding : h)]. *)
Definition handleUpdateHolding (holdings : list Holding) (updatedHolding : Holding)
  : list Holding :=
  map (λ h, if decide (id h = id updatedHolding) then updatedHolding else h) holdings.

(** [handleDelete]: the holdings after the call; [confirmed] is the answer
    to the [confirm] dialog.  On confirmation the list handed to
    [persistHoldings] is [holdings.filter(h => h.id !== id)]. *)
Definition handleDelete (confirmed : bool) (holdings : list Holding) (id0 : string)
  : list Holding :=
  if confirmed then filter (λ h, id h ≠ id0) holdings else holdings.

(** The [pieData] memo:
    [holdings.map(h => ({ name: h.name, value: h.currentPrice * h.quantity }))
             .filter(d => d.value > 0)]. *)
Definition pieData (holdings : list Holding) : list (string * Q) :=
  filter (λ d, JS.gt d.2 0 = true)
         (map (λ h, (name h, (currentPrice h * quantity h)%Q)) holdings).

(** [(h.currentPrice - h.buyPrice) * h.quantity] *)
Definition profitLoss (h : Holding) : Q :=
  ((currentPrice h - buyPrice h) * quantity h)%Q.

(** The comparator of [barData]: [Math.abs(plB) - Math.abs(plA)]. *)
Definition byAbsProfitLoss (a b : Holding) : Q :=
  let plA := profitLoss a in
  let plB := profitLoss b in
  (Qabs plB - Qabs plA)%Q.

(** The holdings that [barData] shows: [[...holdings].sort(...).slice(0, 8)]. *)
Definition barHoldings (holdings : list Holding) : list Holding :=
  take 8 (JS.sort byAbsProfitLoss holdings).

(** The [barData] memo. *)
Definition barData (holdings : list Holding) : list (string * Q) :=
  map (λ h, (name h, profitLoss h)) (barHoldings holdings).

End App.

(** ** [services/marketDataService.ts]: fund quote adapter and synchronizer *)

Module MarketDataService.
Import Types.

(** The fields of a [Partial<Holding>] that the adapters produce and the
    synchronizer reads; every one of them may be [undefined]. *)
Record PartialHolding := mkPartial {
  p_name : option string;
  p_currentPrice : option Q;
  p_yesterdayPrice : option Q;
  p_priceDate : option string
}.

(** [interface FundData]; the record's own [name] is [fd_name] here. *)
Record FundData := mkFundData {
  fundcode : string;
  fd_name : string;
  dwjz : string;
  jzrq : string;
  gsz : string;
  gszzl : string;
  gztime : string
}.

Section FundAdapter.

(** The built-in [parseFloat]; [None] is [NaN]. *)
Variable parseFloat : string -> JS.parsed.

(** [isNaN(x) ? 0 : x] *)
Definition nanToZero (x : JS.parsed) : Q :=
  match x with Some v => v | None => 0%Q end.

(** The callback [window.jsonpgz] installed by [fetchFundData(code)]:
    [Some r] when it calls [resolve(r)], [None] when the record is for
    another fund code and the promise is left unresolved. *)
Definition jsonpgz (code : string) (data : FundData) : option PartialHolding :=
  if decide (fundcode data = code) then
    let est := parseFloat (gsz data) in
    let nav := parseFloat (dwjz data) in
    let isEstimateValid := negb (JS.isNaN est) && JS.parsed_gt est 0 in
    let currentPrice := if isEstimateValid then est else nav in
    let yesterdayPrice := nav in
    let priceDate := if isEstimateValid then gztime data else jzrq data in
    Some {| p_name := Some (fd_name data);
            p_currentPrice := Some (nanToZero currentPrice);
            p_yesterdayPrice := Some (nanToZero yesterdayPrice);
            p_priceDate := Some priceDate |}
  else None.

(** What the script loaded by [loadScript(url)] does. *)
Inductive FundTransport :=
| ScriptError
| ScriptCalls (data : FundData).

(** [fetchFundData(code)]: [Some (Some r)] is [resolve(r)], [Some None]
    is [resolve(null)], [None] is a promise that never settles. *)
Definition fetchFundData (code : string) (t : FundTransport)
  : option (option PartialHolding) :=
  match t with
  | ScriptError => Some None
  | ScriptCalls data => Some <$> jsonpgz code data
  end.

End FundAdapter.

(** What an awaited adapter call settles to inside the [try] block. *)
Inductive FetchOutcome :=
| Fulfilled (data : option PartialHolding)
| Rejected.

(** The object literal assigned to [updatedHoldings[i]] when [data] is
    truthy. *)
Definition refreshed (h : Holding) (data : PartialHolding) : Holding :=
  {| id := id h;
     name := JS.or_string (p_name data) (name h);
     code := code h;
     type := type h;
     buyDate := buyDate h;
     buyPrice := buyPrice h;
     quantity := quantity h;
     currentPrice := JS.or_number (p_currentPrice data) (currentPrice h);
     yesterdayPrice := Some (JS.or_number (p_yesterdayPrice data) (currentPrice h));
     priceDate := JS.or_opt_string (p_priceDate data) (priceDate h) |}.

Section Synchronizer.

(** What the adapter call awaited in iteration [i] settles to. *)
Variable fetchFund : nat -> string -> FetchOutcome.
Variable fetchStock : nat -> string -> FetchOutcome.

(** [if (h.type === AssetType.FUND) data = await fetchFundData(h.code);
    else data = await fetchStockData(h.code);] in iteration [i]. *)
Definition fetchData (i : nat) (h : Holding) : FetchOutcome :=
  match type h with
  | FUND => fetchFund i (code h)
  | STOCK => fetchStock i (code h)
  end.

(** The record found in slot [i] after iteration [i], for the holding
    [h = updatedHoldings[i]]: a [null] result and a thrown error both
    leave the slot as it is. *)
Definition refreshOne (i : nat) (h : Holding) : Holding :=
  match fetchData i h with
  | Fulfilled (Some data) => refreshed h data
  | Fulfilled None => h
  | Rejected => h
  end.

(** The body of the [for] loop. *)
Definition refreshStep (updatedHoldings : list Holding) (i : nat) : list Holding :=
  match updatedHoldings !! i with
  | Some h =>
      match fetchData i h with
      | Fulfilled (Some data) => <[i := refreshed h data]> updatedHoldings
      | Fulfilled None => updatedHoldings
      | Rejected => updatedHoldings
      end
  | None => updatedHoldings
  end.

(** [refreshMarketPrices]: [i] runs over [0 .. updatedHoldings.length - 1];
    the length of the copy does not change during the loop. *)
Definition refreshMarketPrices (holdings : list Holding) : list Holding :=
  fold_left refreshStep (seq 0 (length holdings)) holdings.

End Synchronizer.

Section StockAdapter.

(** The built-in [parseFloat]; [None] is [NaN]. *)
Variable parseFloat : string -> JS.parsed.

(** The market prefix guessed from the first character of the code. *)
Definition marketPrefix (code : string) : string :=
  if JS.startsWith code "6" then "sh"
  else if JS.startsWith code "0" || JS.startsWith code "3" then "sz"
  else if JS.startsWith code "8" || JS.startsWith code "4" then "bj"
  else "sh".

(** [`hq_str_${prefix}${code}`] *)
Definition varName (code : string) : string :=
  String.append "hq_str_" (String.append (marketPrefix code) code).

(** [fetchStockData(code)]: [loaded] tells whether [loadScript(url)] was
    fulfilled, and [window] gives the global variables afterwards ([None]
    is [undefined]).  The result is the quote, or [None] for [null]; the
    function catches every error itself.  A price that is [NaN] is recorded
    like an absent one ([None]): the synchronizer reads these fields with
    [||] only, which treats [NaN] and [undefined] alike. *)
Definition fetchStockData (loaded : bool) (window : string → option string)
    (code : string) : option PartialHolding :=
  if loaded then
    match window (varName code) with
    | Some dataStr =>
        if JS.truthy_string dataStr then
          let parts := JS.split "," dataStr in
          if Nat.ltb 31 (length parts) then
            let name := JS.at_ parts 0 in
            let prevClose := parseFloat (JS.at_ parts 2) in
            let current := parseFloat (JS.at_ parts 3) in
            let date := JS.at_ parts 30 in
            let time := JS.at_ parts 31 in
            let validCurrent := if JS.parsed_gt current 0 then current else prevClose in
            Some {| p_name := Some name;
                    p_currentPrice := validCurrent;
                    p_yesterdayPrice := prevClose;
                    p_priceDate := Some (String.append date (String.append " " time)) |}
          else None
        else None
    | None => None
    end
  else None.

End StockAdapter.

End MarketDataService.

(** ** [components/ProfitSharing.tsx]: the profit sharing calculator *)

Module ProfitSharing.

Record Calculation := mkCalculation {
  sharingAmount : Q;
  guaranteeAmount : Q
}.

Definition thresholdLow : Q := 3 # 100.
Definition thresholdHigh : Q := 5 # 100.

(** [(totalProfitLoss - profitAt3Percent) * 0.20] *)
Definition sharingMiddle (totalCost totalProfitLoss : Q) : Q :=
  let profitAt3Percent := (totalCost * thresholdLow)%Q in
  ((totalProfitLoss - profitAt3Percent) * (20 # 100))%Q.

(** [part1 + part2] *)
Definition sharingHigh (totalCost totalProfitLoss : Q) : Q :=
  let profitAt3Percent := (totalCost * thresholdLow)%Q in
  let profitAt5Percent := (totalCost * thresholdHigh)%Q in
  let part1 := ((profitAt5Percent - profitAt3Percent) * (20 # 100))%Q in
  let part2 := ((totalProfitLoss - profitAt5Percent) * (50 # 100))%Q in
  (part1 + part2)%Q.

(** The [calculation] memo. *)
Definition calculation (totalCost totalProfitLoss : Q) : Calculation :=
  if JS.eq totalCost 0 then
    {| sharingAmount := 0; guaranteeAmount := 0 |}
  else if JS.lt totalProfitLoss 0 then
    {| sharingAmount := 0; guaranteeAmount := Qabs totalProfitLoss |}
  else
    let profitRate := (totalProfitLoss / totalCost)%Q in
    if JS.le profitRate thresholdLow then
      {| sharingAmount := 0; guaranteeAmount := 0 |}
    else if JS.gt profitRate thresholdLow && JS.le profitRate thresholdHigh then
      {| sharingAmount := sharingMiddle totalCost totalProfitLoss;
         guaranteeAmount := 0 |}
    else
      {| sharingAmount := sharingHigh totalCost totalProfitLoss;
         guaranteeAmount := 0 |}.

End ProfitSharing.

(** ** [components/AddAssetForm.tsx]: the batch import *)

Module AddAssetForm.
Import Types.

Section Batch.

(** The built-in [parseFloat]; [None] is [NaN]. *)
Variable parseFloat : string -> JS.parsed.
(** The result of the [n]-th call of [uuidv4()] during the submission. *)
Variable uuidv4 : nat → string.
(** [new Date().toISOString().split('T')[0]] *)
Variable today : string.

(** The body of [lines.forEach(line => ...)] from [if (parts.length >= 4)]
    on, acting on the array [newHoldings]; [parts] are the trimmed fields
    of the line, [line.split(/,|，/).map(p => p.trim())]. *)
Definition batchLine (newHoldings : list Holding) (parts : list string) : list Holding :=
  if Nat.leb 4 (length parts) then
    let name := JS.at_ parts 0 in
    let code := JS.at_ parts 1 in
    let price := parseFloat (JS.at_ parts 2) in
    let qty := parseFloat (JS.at_ parts 3) in
    match price, qty with
    | Some price, Some qty =>
        if JS.truthy_string code then
          newHoldings ++
          [ {| id := uuidv4 (length newHoldings);
               name := if JS.truthy_string name then name else code;
               code := code;
               type := FUND;
               buyDate := today;
               buyPrice := price;
               quantity := qty;
               currentPrice := price;
               yesterdayPrice := None;
               priceDate := None |} ]
        else newHoldings
    | _, _ => newHoldings
    end
  else newHoldings.

(** What [handleBatchSubmit] does in the end. *)
Inductive BatchOutcome :=
| OnAdd (newHoldings : list Holding)
| Alert.

(** [handleBatchSubmit], given the trimmed fields of every line. *)
Definition handleBatchSubmit (lines : list (list string)) : BatchOutcome :=
  let newHoldings := fold_left batchLine lines [] in
  if Nat.ltb 0 (length newHoldings) then OnAdd newHoldings else Alert.

End Batch.

End AddAssetForm.

(** ** [components/HoldingsTable.tsx]: filtering and sorting of the table *)

Module HoldingsTable.
Import Types.

Inductive SortField := marketValue | profitLoss | profitRate | dayProfitLoss | sortCurrentPrice.
Inductive SortOrder := asc | desc.

#[global] Instance SortField_eq_dec : EqDecision SortField.
Proof. solve_decision. Defined.

(** The component state [sortField], [sortOrder]. *)
Record SortState := mkSort { sortField : SortField; sortOrder : SortOrder }.

(** [handleSort(field)] *)
Definition handleSort (st : SortState) (field : SortField) : SortState :=
  if decide (sortField st = field)
  then {| sortField := sortField st;
          sortOrder := match sortOrder st with asc => desc | desc => asc end |}
  else {| sortField := field; sortOrder := desc |}.

(** [holdings.filter(h => filterType === 'ALL' || h.type === filterType)];
    [None] is ['ALL']. *)
Definition filtered (filterType : option AssetType) (holdings : list Holding)
  : list Holding :=
  filter (λ h, filterType = None ∨ Some (type h) = filterType) holdings.

(** The value that the comparator takes from a holding for a sort field
    ([val1] for [a], [val2] for [b]). *)
Definition sortValue (field : SortField) (a : Holding) : Q :=
  let costA := (buyPrice a * quantity a)%Q in
  let valA := (currentPrice a * quantity a)%Q in
  let plA := (valA - costA)%Q in
  let prA := if JS.gt costA 0 then (plA / costA)%Q else 0%Q in
  let dayPLA :=
    match yesterdayPrice a with
    | Some y => if JS.truthy_number y
                then ((currentPrice a - y) * quantity a)%Q else 0%Q
    | None => 0%Q
    end in
  match field with
  | marketValue => valA
  | profitLoss => plA
  | profitRate => prA
  | dayProfitLoss => dayPLA
  | sortCurrentPrice => currentPrice a
  end.

(** [sortOrder === 'asc' ? val1 - val2 : val2 - val1] *)
Definition compare (st : SortState) (a b : Holding) : Q :=
  let val1 := sortValue (sortField st) a in
  let val2 := sortValue (sortField st) b in
  match sortOrder st with
  | asc => (val1 - val2)%Q
  | desc => (val2 - val1)%Q
  end.

(** [[...filtered].sort(...)]: the rows of the table. *)
Definition sorted (filterType : option AssetType) (st : SortState)
    (holdings : list Holding) : list Holding :=
  JS.sort (compare st) (filtered filterType holdings).

End HoldingsTable.

(** ** Notions used by the statements *)

Module Spec.
Import Types.

(** Everything of a holding except [quantity] and [buyPrice]. *)
Definition sameFrame (h h' : Holding) : Prop :=
  id h' = id h ∧ name h' = name h ∧ code h' = code h ∧ type h' = type h ∧
  buyDate h' = buyDate h ∧ currentPrice h' = currentPrice h ∧
  yesterdayPrice h' = yesterdayPrice h ∧ priceDate h' = priceDate h.

(** The pairs [(code, type)] of a holding set are pairwise distinct. *)
Definition uniqueKeys (holdings : list Holding) : Prop :=
  NoDup (key <$> holdings).

(** A fetch that brought no data: [null], or an error caught by the loop. *)
Definition fetchFailed (o : MarketDataService.FetchOutcome) : Prop :=
  o = MarketDataService.Fulfilled None ∨ o = MarketDataService.Rejected.

(** A value that [x || fallback] passes over: [undefined] or [0]. *)
Definition unusable (x : option Q) : Prop :=
  x = None ∨ ∃ v, x = Some v ∧ (v == 0)%Q.

(** At most one position of [holdings] carries the key [k]. *)
Definition atMostOne (k : string * AssetType) (holdings : list Holding) : Prop :=
  ∀ i j x y, holdings !! i = Some x → holdings !! j = Some y →
             key x = k → key y = k → i = j.

(** The sum of a quantity over a holding list. *)
Definition sumOf {A} (f : A → Q) (l : list A) : Q :=
  foldr (λ h acc, (f h + acc)%Q) 0%Q l.

(** The market value of one holding. *)
Definition value (h : Holding) : Q := (currentPrice h * quantity h)%Q.

(** The ids of a holding list are pairwise distinct. *)
Definition uniqueIds (holdings : list Holding) : Prop :=
  NoDup (id <$> holdings).

(** The number of occurrences of a character in a string. *)
Fixpoint occurrences (c : ascii) (s : string) : nat :=
  match s with
  | EmptyString => 0
  | String c' rest => (if Ascii.eqb c' c then 1 else 0) + occurrences c rest
  end.

(** A line of the batch text that yields a holding: at least four fields,
    a non-empty code in field 1 and numbers in fields 2 and 3. *)
Definition validRow (parseFloat : string → JS.parsed) (parts : list string) : Prop :=
  4 ≤ length parts ∧ JS.at_ parts 1 ≠ "" ∧
  is_Some (parseFloat (JS.at_ parts 2)) ∧ is_Some (parseFloat (JS.at_ parts 3)).

(** What every holding created by the batch import looks like. *)
Definition imported (today : string) (h : Holding) : Prop :=
  code h ≠ "" ∧ name h ≠ "" ∧ type h = FUND ∧ currentPrice h = buyPrice h ∧
  buyDate h = today ∧ yesterdayPrice h = None ∧ priceDate h = None.

End Spec.

(** ** Concrete scenarios *)

Module Scenario.
Import Types.

Definition holding (i c : string) (t : AssetType) (p q : Q) : Holding :=
  {| id := i; name := c; code := c; type := t; buyDate := "2024-01-02";
     buyPrice := p; quantity := q; currentPrice := p;
     yesterdayPrice := None; priceDate := None |}.

Definition existing : Holding := holding "id-1" "161725" FUND 10 100.
Definition incoming : Holding := holding "id-2" "161725" FUND 12 50.
Definition other : Holding := holding "id-3" "600519" STOCK 1500 2.
Definition again : Holding := holding "id-4" "161725" FUND 9 25.

(** The holding [other] after an edit that gives it the code and type of
    [existing]. *)
Definition edited : Holding := holding "id-3" "161725" FUND 1500 2.

(** A stand-in for [parseFloat] on the strings of the scenarios.  It reads
    a leading unsigned numeral [digits] or [digits.digits] and gives [NaN]
    when the string does not start with a digit.  On the empty string and
    on such numerals it returns what [parseFloat] returns (up to rounding);
    signs, exponents and leading blanks are not handled. *)
Definition digitValue (c : Ascii.ascii) : option Z :=
  let n := Z.of_nat (Ascii.nat_of_ascii c) in
  if ((48 <=? n) && (n <=? 57))%Z then Some (n - 48)%Z else None.

Fixpoint readDigits (s : string) (acc : Z) (count : nat) : Z * nat * string :=
  match s with
  | String c rest =>
      match digitValue c with
      | Some d => readDigits rest (10 * acc + d)%Z (S count)
      | None => (acc, count, s)
      end
  | EmptyString => (acc, count, s)
  end.

Definition parseDecimal (s : string) : JS.parsed :=
  let '(whole, n, rest) := readDigits s 0%Z 0 in
  match n, rest with
  | O, _ => None
  | _, String "."%char rest' =>
      let '(frac, m, _) := readDigits rest' 0%Z 0 in
      Some (inject_Z whole + inject_Z frac / inject_Z (10 ^ Z.of_nat m))%Q
  | _, _ => Some (inject_Z whole)
  end.

(** A held fund position with a known price history. *)
Definition held : Holding :=
  {| id := "id-7"; name := "Fund A"; code := "161725"; type := FUND;
     buyDate := "2024-01-02"; buyPrice := 8; quantity := 100;
     currentPrice := 10; yesterdayPrice := Some 9%Q;
     priceDate := Some "2024-03-01" |}.

(** A fund record with a valid estimate and a net value that does not parse. *)
Definition estimateOnly : MarketDataService.FundData :=
  {| MarketDataService.fundcode := "161725";
     MarketDataService.fd_name := "Fund A";
     MarketDataService.dwjz := "";
     MarketDataService.jzrq := "2024-03-01";
     MarketDataService.gsz := "12";
     MarketDataService.gszzl := "";
     MarketDataService.gztime := "2024-03-04 14:30" |}.

(** A fund record with both an estimate and a net value. *)
Definition fullQuote : MarketDataService.FundData :=
  {| MarketDataService.fundcode := "161725";
     MarketDataService.fd_name := "Fund A";
     MarketDataService.dwjz := "11.5";
     MarketDataService.jzrq := "2024-03-01";
     MarketDataService.gsz := "12";
     MarketDataService.gszzl := "4.35";
     MarketDataService.gztime := "2024-03-04 14:30" |}.

(** A quote whose price is negative. *)
Definition negativeQuote : MarketDataService.PartialHolding :=
  {| MarketDataService.p_name := Some "Fund A";
     MarketDataService.p_currentPrice := Some (-1)%Q;
     MarketDataService.p_yesterdayPrice := Some 9%Q;
     MarketDataService.p_priceDate := Some "2024-03-04" |}.

(** An adapter whose call in iteration [i] settles to the [i]-th outcome of
    a list (and throws beyond it). *)
Definition feed (outcomes : list MarketDataService.FetchOutcome)
  : nat → string → MarketDataService.FetchOutcome :=
  λ i _, default MarketDataService.Rejected (outcomes !! i).

(** A stock record of 33 fields for a suspended stock: no current price
    (field 3 is [0]), previous close [1490]. *)
Definition stockRecord : string :=
  "KM,1500,1490,0,1512,1481,1489,1491,25310,37854120,300,1489,1200,1488,700,1487,400,1486,900,1485,500,1491,800,1492,600,1493,200,1494,100,1495,2024-03-04,15:00:00,00".

(** The global variables after the script for code [600519] has run. *)
Definition stockWindow (name : string) : option string :=
  if String.eqb name "hq_str_sh600519" then Some stockRecord else None.

(** An id generator for the scenarios. *)
Definition uuid (n : nat) : string :=
  match n with
  | 0 => "uuid-a"
  | 1 => "uuid-b"
  | _ => "uuid-c"
  end.

End Scenario.

(** * Proofs *)

Import Types.

(** ** Comparison and truthiness on rationals *)

Lemma JS_gt_true a b : JS.gt a b = true <-> (b < a)%Q.
Proof.
  unfold JS.gt. rewrite negb_true_iff, <- not_true_iff_false, Qle_bool_iff.
  split; [apply Qnot_le_lt | apply Qlt_not_le].
Qed.

Lemma JS_gt_false a b : JS.gt a b = false <-> (a <= b)%Q.
Proof. unfold JS.gt. rewrite negb_false_iff. apply Qle_bool_iff. Qed.

Lemma JS_lt_true a b : JS.lt a b = true <-> (a < b)%Q.
Proof. apply JS_gt_true. Qed.

Lemma JS_lt_false a b : JS.lt a b = false <-> (b <= a)%Q.
Proof. apply JS_gt_false. Qed.

Lemma JS_le_true a b : JS.le a b = true <-> (a <= b)%Q.
Proof. apply Qle_bool_iff. Qed.

Lemma JS_le_false a b : JS.le a b = false <-> (b < a)%Q.
Proof.
  unfold JS.le. rewrite <- not_true_iff_false, Qle_bool_iff.
  split; [apply Qnot_le_lt | apply Qlt_not_le].
Qed.

Lemma JS_eq_true a b : JS.eq a b = true <-> (a == b)%Q.
Proof. apply Qeq_bool_iff. Qed.

Lemma JS_eq_false a b : JS.eq a b = false <-> ~ (a == b)%Q.
Proof. unfold JS.eq. rewrite <- not_true_iff_false, Qeq_bool_iff. tauto. Qed.

Lemma JS_truthy_true x : JS.truthy_number x = true <-> ~ (x == 0)%Q.
Proof. unfold JS.truthy_number. rewrite negb_true_iff. apply JS_eq_false. Qed.

Lemma JS_truthy_false x : JS.truthy_number x = false <-> (x == 0)%Q.
Proof. unfold JS.truthy_number. rewrite negb_false_iff. apply Qeq_bool_iff. Qed.

(** ** The position merge engine *)

Section MergeEngine.
Import App Spec.

Implicit Types (h existing incoming : Holding) (l updatedList : list Holding).

Lemma sameAsset_key incoming h : sameAsset incoming h ↔ key h = key incoming.
Proof. unfold sameAsset, key. split; [intros [-> ->]; done | intros [= -> ->]; done]. Qed.

Lemma merged_sameFrame existing incoming : sameFrame existing (merged existing incoming).
Proof. repeat split. Qed.

Lemma merged_key existing incoming : key (merged existing incoming) = key existing.
Proof. reflexivity. Qed.

Lemma sameFrame_refl h : sameFrame h h.
Proof. repeat split. Qed.

Lemma sameFrame_trans h1 h2 h3 : sameFrame h1 h2 → sameFrame h2 h3 → sameFrame h1 h3.
Proof. unfold sameFrame. intuition congruence. Qed.

Lemma sameFrame_key h h' : sameFrame h h' → key h' = key h.
Proof. unfold sameFrame, key. intuition congruence. Qed.

(** The two branches of one step. *)
Lemma mergeEntry_found updatedList ids incoming i existing :
  list_find (sameAsset incoming) updatedList = Some (i, existing) →
  mergeEntry (updatedList, ids) incoming =
    (<[i := merged existing incoming]> updatedList, ids ++ [id existing]).
Proof. intros H. unfold mergeEntry. by rewrite H. Qed.

Lemma mergeEntry_fresh updatedList ids incoming :
  list_find (sameAsset incoming) updatedList = None →
  mergeEntry (updatedList, ids) incoming =
    (updatedList ++ [incoming], ids ++ [id incoming]).
Proof. intros H. unfold mergeEntry. by rewrite H. Qed.

(** The list component never depends on the ids collected so far. *)
Lemma mergeEntry_list_indep updatedList ids ids' incoming :
  (mergeEntry (updatedList, ids) incoming).1 = (mergeEntry (updatedList, ids') incoming).1.
Proof. unfold mergeEntry. by destruct (list_find _ _) as [[??]|]. Qed.

Lemma fold_mergeEntry_list_indep batch updatedList ids ids' :
  (fold_left mergeEntry batch (updatedList, ids)).1 =
  (fold_left mergeEntry batch (updatedList, ids')).1.
Proof.
  revert updatedList ids ids'. induction batch as [|x batch IH]; intros l ids ids'; [done|].
  cbn [fold_left]. pose proof (mergeEntry_list_indep l ids ids' x) as E.
  destruct (mergeEntry (l, ids) x) as [l1 i1], (mergeEntry (l, ids') x) as [l2 i2].
  simpl in E. subst l2. apply IH.
Qed.

(** The merge is a left fold that can be cut at any point of the batch. *)
Lemma handleAddHoldings_app holdings xs ys :
  (handleAddHoldings holdings (xs ++ ys)).1 =
  (handleAddHoldings (handleAddHoldings holdings xs).1 ys).1.
Proof.
  unfold handleAddHoldings. rewrite fold_left_app.
  destruct (fold_left mergeEntry xs (holdings, [])) as [l ids]. simpl.
  apply fold_mergeEntry_list_indep.
Qed.

(** One step keeps every earlier position, changes at most [quantity] and
    [buyPrice] there, and changes nothing at a position whose key differs
    from the incoming entry's. *)
Lemma mergeEntry_frame updatedList ids incoming i h :
  updatedList !! i = Some h →
  ∃ h', (mergeEntry (updatedList, ids) incoming).1 !! i = Some h' ∧
        sameFrame h h' ∧ (key h ≠ key incoming → h' = h).
Proof.
  intros Hi. destruct (list_find (sameAsset incoming) updatedList) as [[j e]|] eqn:F.
  - rewrite (mergeEntry_found _ _ _ _ _ F). simpl.
    apply list_find_Some in F as (Hj & Hsame & _).
    destruct (decide (j = i)) as [->|Hne].
    + rewrite Hi in Hj. injection Hj as <-.
      exists (merged h incoming). split_and!.
      * apply list_lookup_insert_eq. by eapply lookup_lt_Some.
      * apply merged_sameFrame.
      * intros Hk. by apply sameAsset_key in Hsame.
    + exists h. rewrite list_lookup_insert_ne by done.
      split_and!; [done | apply sameFrame_refl | done].
  - rewrite (mergeEntry_fresh _ _ _ F). simpl.
    exists h. split_and!; [by apply lookup_app_l_Some | apply sameFrame_refl | done].
Qed.

Lemma fold_mergeEntry_frame batch updatedList ids i h :
  updatedList !! i = Some h →
  ∃ h', (fold_left mergeEntry batch (updatedList, ids)).1 !! i = Some h' ∧
        sameFrame h h' ∧
        ((∀ incoming, incoming ∈ batch → key h ≠ key incoming) → h' = h).
Proof.
  revert updatedList ids h. induction batch as [|x batch IH]; intros l ids h Hi.
  - exists h. split_and!; [done | apply sameFrame_refl | done].
  - cbn [fold_left]. destruct (mergeEntry_frame l ids x i h Hi) as (h1 & H1 & F1 & U1).
    destruct (mergeEntry (l, ids) x) as [l1 ids1]. simpl in H1.
    destruct (IH l1 ids1 h1 H1) as (h2 & H2 & F2 & U2).
    exists h2. split_and!; [done | by eapply sameFrame_trans |].
    intros Hall. assert (h1 = h) as -> by (apply U1, Hall; left).
    apply U2. intros y Hy. apply Hall. by right.
Qed.

(** Matching again at the slot that was just merged. *)
Lemma list_find_reinsert l incoming incoming' i existing existing' :
  list_find (sameAsset incoming) l = Some (i, existing) →
  key incoming' = key incoming →
  key existing' = key existing →
  list_find (sameAsset incoming') (<[i := existing']> l) = Some (i, existing').
Proof.
  intros (Hi & Hsame & Hfirst)%list_find_Some Hk Hk'.
  apply list_find_Some. split_and!.
  - apply list_lookup_insert_eq. by eapply lookup_lt_Some.
  - apply sameAsset_key. apply sameAsset_key in Hsame. congruence.
  - intros j y Hj Hlt. rewrite list_lookup_insert_ne in Hj by lia.
    intros Hy%sameAsset_key. apply (Hfirst j y Hj Hlt).
    apply sameAsset_key. congruence.
Qed.

(** Matching the entry that was just appended. *)
Lemma list_find_appended l incoming incoming' :
  list_find (sameAsset incoming) l = None →
  key incoming' = key incoming →
  list_find (sameAsset incoming') (l ++ [incoming]) = Some (length l, incoming).
Proof.
  intros Hnone Hk. apply list_find_Some. split_and!.
  - by apply list_lookup_middle.
  - by apply sameAsset_key.
  - intros j y Hj Hlt. rewrite lookup_app_l in Hj by done.
    rewrite list_find_None, Forall_lookup in Hnone.
    intros Hy%sameAsset_key. apply (Hnone j y Hj). apply sameAsset_key. congruence.
Qed.

(** The keys after one step. *)
Lemma mergeEntry_keys updatedList ids incoming :
  key <$> (mergeEntry (updatedList, ids) incoming).1 =
  if decide (key incoming ∈ key <$> updatedList)
  then key <$> updatedList
  else (key <$> updatedList) ++ [key incoming].
Proof.
  destruct (list_find (sameAsset incoming) updatedList) as [[i e]|] eqn:F.
  - rewrite (mergeEntry_found _ _ _ _ _ F). simpl.
    apply list_find_Some in F as (Hi & Hsame%sameAsset_key & _).
    rewrite decide_True.
    + rewrite list_fmap_insert, merged_key. apply list_insert_id.
      by rewrite list_lookup_fmap, Hi.
    + rewrite <- Hsame. apply list_elem_of_fmap_2. by eapply list_elem_of_lookup_2.
  - rewrite (mergeEntry_fresh _ _ _ F). simpl. rewrite fmap_app. simpl.
    rewrite decide_False; [done|].
    intros (y & Hy & Hin)%list_elem_of_fmap.
    rewrite list_find_None, Forall_forall in F.
    apply (F y Hin). by apply sameAsset_key.
Qed.

Lemma mergeEntry_uniqueKeys updatedList ids incoming :
  uniqueKeys updatedList → uniqueKeys (mergeEntry (updatedList, ids) incoming).1.
Proof.
  unfold uniqueKeys. intros Hnd. rewrite mergeEntry_keys. case_decide; [done|].
  apply NoDup_app. split_and!; [done | | apply NoDup_singleton].
  intros k Hk ->%list_elem_of_singleton. done.
Qed.

End MergeEngine.

Import App Spec.

(** Concrete scenario 1 of the specification: [{buyPrice: 10, qty: 100}]
    merged with [{buyPrice: 12, qty: 50}]. *)
Example scenario_merge :
  ∃ h, (handleAddHoldings [Scenario.other; Scenario.existing] [Scenario.incoming]).1
         = [Scenario.other; h] ∧
       id h = "id-1" ∧ (quantity h == 150)%Q ∧ (buyPrice h == 32 # 3)%Q.
Proof. eexists. split; [reflexivity|]. by vm_compute. Qed.

(** C1.  Weighted-average correctness.  Let the merge engine have processed
    the entries [prior] of a batch, and let the next entry [incoming] match
    the holding [existing] at position [i] of the running list (the first
    position with that [(code, type)], which is the one [findIndex]
    returns).  After [incoming] is processed, position [i] holds a record
    whose [quantity] is [q1 + q2]; its [buyPrice] is
    [(p1*q1 + p2*q2) / (q1 + q2)] whenever [q1 + q2 > 0] and is [0] when
    [q1 + q2 = 0].  No sign condition on the prices and quantities is
    needed. *)
Theorem weighted_average_merge holdings prior incoming i existing :
  let updatedList := (handleAddHoldings holdings prior).1 in
  let p1 := buyPrice existing in
  let q1 := quantity existing in
  let p2 := buyPrice incoming in
  let q2 := quantity incoming in
  updatedList !! i = Some existing →
  key existing = key incoming →
  (∀ j y, updatedList !! j = Some y → j < i → key y ≠ key incoming) →
  ∃ h', (handleAddHoldings holdings (prior ++ [incoming])).1 !! i = Some h' ∧
        quantity h' = (q1 + q2)%Q ∧
        ((0 < q1 + q2)%Q → buyPrice h' = ((p1 * q1 + p2 * q2) / (q1 + q2))%Q) ∧
        ((q1 + q2 == 0)%Q → buyPrice h' = 0%Q).
Proof.
  intros l p1 q1 p2 q2 Hi Hk Hfirst. subst p1 q1 p2 q2.
  assert (list_find (sameAsset incoming) l = Some (i, existing)) as F.
  { apply list_find_Some. split_and!; [done | by apply sameAsset_key |].
    intros j y Hj Hlt Hy%sameAsset_key. by apply (Hfirst j y). }
  rewrite handleAddHoldings_app. fold l.
  unfold handleAddHoldings. cbn [fold_left].
  rewrite (mergeEntry_found _ _ _ _ _ F). cbn [fst].
  exists (merged existing incoming). split_and!.
  - apply list_lookup_insert_eq. by eapply lookup_lt_Some.
  - reflexivity.
  - intros Hpos. cbn [merged buyPrice]. unfold newAvgPrice.
    by apply JS_gt_true in Hpos as ->.
  - intros Hzero. cbn [merged buyPrice]. unfold newAvgPrice.
    assert (JS.gt (quantity existing + quantity incoming) 0 = false) as ->; [|done].
    apply JS_gt_false. rewrite Hzero. apply Qle_refl.
Qed.

Lemma weighted_average_merge_witness :
  ∃ h', (handleAddHoldings [Scenario.other] ([Scenario.existing] ++ [Scenario.incoming])).1 !! 1
          = Some h' ∧
        quantity h' = (100 + 50)%Q ∧
        ((0 < 100 + 50)%Q → buyPrice h' = ((10 * 100 + 12 * 50) / (100 + 50))%Q) ∧
        ((100 + 50 == 0)%Q → buyPrice h' = 0%Q).
Proof.
  apply (weighted_average_merge [Scenario.other] [Scenario.existing]
           Scenario.incoming 1 Scenario.existing).
  - reflexivity.
  - reflexivity.
  - intros j y Hj Hlt. assert (j = 0) as -> by lia.
    injection Hj as <-. discriminate.
Defined.

(** C5.  Uniqueness of the identity key is preserved: when the pairs
    [(code, type)] of the holding set are pairwise distinct, they are again
    pairwise distinct in the holding set the merge engine produces, for
    every incoming batch. *)
Theorem merge_preserves_unique_keys holdings newHoldings :
  uniqueKeys holdings →
  uniqueKeys (handleAddHoldings holdings newHoldings).1.
Proof.
  unfold handleAddHoldings. generalize (@nil string).
  revert holdings. induction newHoldings as [|x batch IH]; intros l ids Hl; [done|].
  cbn [fold_left].
  pose proof (mergeEntry_uniqueKeys l ids x Hl) as H1.
  destruct (mergeEntry (l, ids) x) as [l1 ids1]. by apply IH.
Qed.

Lemma merge_preserves_unique_keys_witness :
  uniqueKeys [Scenario.other; Scenario.existing] ∧
  uniqueKeys (handleAddHoldings [Scenario.other; Scenario.existing]
                [Scenario.incoming; Scenario.again]).1.
Proof.
  assert (uniqueKeys [Scenario.other; Scenario.existing]) as H.
  { unfold uniqueKeys. apply (bool_decide_unpack _). vm_compute. exact I. }
  split; [exact H|].
  exact (merge_preserves_unique_keys _ [Scenario.incoming; Scenario.again] H).
Defined.

(** C6.  Frame condition of the merge.  Every holding [h] of the pre-batch
    set is still at its position afterwards, with its [id], [name], [code],
    [type], [buyDate], [currentPrice], [yesterdayPrice] and [priceDate]
    intact: the engine changes [quantity] and [buyPrice] only.  If no entry
    of the batch has [h]'s [(code, type)], the record is left entirely
    unchanged. *)
Theorem merge_frame_condition holdings newHoldings i h :
  holdings !! i = Some h →
  ∃ h', (handleAddHoldings holdings newHoldings).1 !! i = Some h' ∧
        id h' = id h ∧ name h' = name h ∧ code h' = code h ∧ type h' = type h ∧
        buyDate h' = buyDate h ∧ currentPrice h' = currentPrice h ∧
        yesterdayPrice h' = yesterdayPrice h ∧ priceDate h' = priceDate h ∧
        ((∀ incoming, incoming ∈ newHoldings → key incoming ≠ key h) → h' = h).
Proof.
  intros Hi. unfold handleAddHoldings.
  destruct (fold_mergeEntry_frame newHoldings holdings [] i h Hi) as (h' & H' & F & U).
  exists h'. destruct F as (?&?&?&?&?&?&?&?).
  split_and!; try done.
  intros Hall. apply U. intros y Hy E. by apply (Hall y Hy).
Qed.

Lemma merge_frame_condition_witness :
  ∃ h', (handleAddHoldings [Scenario.other; Scenario.existing]
           [Scenario.incoming; Scenario.again]).1 !! 1 = Some h' ∧
        id h' = "id-1" ∧ name h' = "161725" ∧ code h' = "161725" ∧ type h' = FUND ∧
        buyDate h' = "2024-01-02" ∧ currentPrice h' = 10%Q ∧
        yesterdayPrice h' = None ∧ priceDate h' = None ∧
        ((∀ incoming, incoming ∈ [Scenario.incoming; Scenario.again] →
                      key incoming ≠ key Scenario.existing) → h' = Scenario.existing).
Proof.
  apply (merge_frame_condition [Scenario.other; Scenario.existing]
           [Scenario.incoming; Scenario.again] 1 Scenario.existing).
  reflexivity.
Defined.

(** C4, as the specification states it, fails for a holding list that
    already has two holdings of the key.  Such a list arises from a list
    with pairwise distinct keys by editing one holding
    ([handleUpdateHolding]) to the code and type of another.  A batch of two
    entries with that key is then folded into the first of the two, and the
    second stays: the result has two holdings of the key, not one. *)
Lemma batch_self_merge_prior_duplicates :
  let before := handleUpdateHolding [Scenario.other; Scenario.existing] Scenario.edited in
  let result := (handleAddHoldings before [Scenario.incoming; Scenario.again]).1 in
  uniqueKeys [Scenario.other; Scenario.existing] ∧
  key Scenario.incoming = key Scenario.again ∧
  ∃ h0 h1, result = [h0; h1] ∧
           key h0 = key Scenario.incoming ∧ key h1 = key Scenario.incoming ∧
           id h0 = "id-3" ∧ (quantity h0 == 77)%Q ∧
           id h1 = "id-1" ∧ quantity h1 = 100%Q.
Proof.
  split_and!.
  - unfold uniqueKeys. apply (bool_decide_unpack _). vm_compute. exact I.
  - reflexivity.
  - eexists. eexists. split; [reflexivity|]. split_and!; reflexivity.
Qed.

(** C4, amended.  Batch self-merge.  The merge is a sequential left fold
    against a running accumulator: for every holding list, a batch
    [xs ++ ys] produces the holding set that submitting [xs] and then [ys]
    produces.  In particular two entries [a] and [b] with the same
    [(code, type)], submitted as one batch, give the holding set of the two
    consecutive single-entry calls; and when the pre-batch holding set has
    at most one holding of that key (as it has when its keys are pairwise
    distinct), the result has exactly one holding of that key, whose
    quantity is the combined one: the pre-batch holding's quantity plus
    both incoming quantities, or the sum of the two incoming quantities
    when the key is new. *)
Theorem batch_self_merge :
  (∀ holdings xs ys,
     (handleAddHoldings holdings (xs ++ ys)).1 =
     (handleAddHoldings (handleAddHoldings holdings xs).1 ys).1) ∧
  (∀ holdings a b,
     key a = key b →
     atMostOne (key a) holdings →
     let result := (handleAddHoldings holdings [a; b]).1 in
     result = (handleAddHoldings (handleAddHoldings holdings [a]).1 [b]).1 ∧
     ∃ i h, result !! i = Some h ∧ key h = key a ∧
            (∀ j h', result !! j = Some h' → key h' = key a → j = i) ∧
            (∀ e, e ∈ holdings → key e = key a →
                  quantity h = (quantity e + quantity a + quantity b)%Q) ∧
            ((∀ e, e ∈ holdings → key e ≠ key a) →
             quantity h = (quantity a + quantity b)%Q)).
Proof.
  split; [apply handleAddHoldings_app|].
  intros holdings a b Hab Hone result. split.
  { apply (handleAddHoldings_app holdings [a] [b]). }
  subst result. unfold handleAddHoldings. cbn [fold_left].
  destruct (list_find (sameAsset a) holdings) as [[i e]|] eqn:F.
  - rewrite (mergeEntry_found _ _ _ _ _ F).
    assert (list_find (sameAsset b) (<[i := merged e a]> holdings)
            = Some (i, merged e a)) as F2.
    { eapply list_find_reinsert; [exact F | done | apply merged_key]. }
    rewrite (mergeEntry_found _ _ _ _ _ F2). cbn [fst].
    apply list_find_Some in F as (Hi & Hsame%sameAsset_key & _).
    exists i, (merged (merged e a) b). split_and!.
    + apply list_lookup_insert_eq. rewrite length_insert. by eapply lookup_lt_Some.
    + by rewrite !merged_key.
    + intros j h' Hj Hk. destruct (decide (j = i)) as [|Hne]; [done|].
      rewrite !list_lookup_insert_ne in Hj by done.
      by apply (Hone j i h' e).
    + intros e' (j & Hj)%list_elem_of_lookup_1 Hk.
      assert (j = i) as -> by by apply (Hone j i e' e).
      rewrite Hi in Hj. by injection Hj as <-.
    + intros Hall. exfalso. apply (Hall e); [|done]. by eapply list_elem_of_lookup_2.
  - rewrite (mergeEntry_fresh _ _ _ F).
    assert (list_find (sameAsset b) (holdings ++ [a]) = Some (length holdings, a)) as F2.
    { by apply list_find_appended. }
    rewrite (mergeEntry_found _ _ _ _ _ F2). cbn [fst].
    rewrite list_find_None, Forall_forall in F.
    exists (length holdings), (merged a b). split_and!.
    + apply list_lookup_insert_eq. rewrite length_app. simpl. lia.
    + apply merged_key.
    + intros j h' Hj Hk. destruct (decide (j = length holdings)) as [|Hne]; [done|].
      rewrite list_lookup_insert_ne in Hj by done.
      apply lookup_app_Some in Hj as [Hj|[Hge Hj]].
      * exfalso. apply (F h'); [by eapply list_elem_of_lookup_2 | by apply sameAsset_key].
      * apply list_lookup_singleton_Some in Hj as [Hj _]. lia.
    + intros e Hin Hk. exfalso. apply (F e Hin). by apply sameAsset_key.
    + reflexivity.
Qed.

Lemma batch_self_merge_witness :
  let result := (handleAddHoldings [Scenario.other; Scenario.existing]
                   [Scenario.incoming; Scenario.again]).1 in
  result = (handleAddHoldings
              (handleAddHoldings [Scenario.other; Scenario.existing] [Scenario.incoming]).1
              [Scenario.again]).1 ∧
  ∃ i h, result !! i = Some h ∧ key h = key Scenario.incoming ∧
         (∀ j h', result !! j = Some h' → key h' = key Scenario.incoming → j = i) ∧
         (∀ e, e ∈ [Scenario.other; Scenario.existing] → key e = key Scenario.incoming →
               quantity h = (quantity e + quantity Scenario.incoming + quantity Scenario.again)%Q) ∧
         ((∀ e, e ∈ [Scenario.other; Scenario.existing] → key e ≠ key Scenario.incoming) →
          quantity h = (quantity Scenario.incoming + quantity Scenario.again)%Q).
Proof.
  apply (proj2 batch_self_merge [Scenario.other; Scenario.existing]
           Scenario.incoming Scenario.again).
  - reflexivity.
  - intros i j x y Hi Hj Hx Hy.
    destruct i as [|[|i]], j as [|[|j]]; try done;
      simpl in Hi, Hj; simplify_eq; discriminate.
Defined.

(** ** The price synchronizer *)

Section SynchronizerFacts.
Import MarketDataService.

Variable fetchFund fetchStock : nat → string → FetchOutcome.

Lemma refreshStep_insert l i h :
  l !! i = Some h →
  refreshStep fetchFund fetchStock l i = <[i := refreshOne fetchFund fetchStock i h]> l.
Proof.
  intros Hi. unfold refreshStep, refreshOne.
  rewrite Hi. destruct (fetchData _ _ i h) as [[data|]|]; [done | |];
    symmetry; by apply list_insert_id.
Qed.

(** After the first [n] iterations the first [n] slots are refreshed and
    the others are as in the input. *)
Lemma refresh_loop_lookup l n j :
  n ≤ length l →
  fold_left (refreshStep fetchFund fetchStock) (seq 0 n) l !! j =
    if decide (j < n) then refreshOne fetchFund fetchStock j <$> l !! j else l !! j.
Proof.
  revert j. induction n as [|n IH]; intros j Hn.
  - cbn [seq fold_left]. by rewrite decide_False by lia.
  - rewrite seq_S, fold_left_app. cbn [fold_left plus].
    set (l' := fold_left _ (seq 0 n) l).
    destruct (lookup_lt_is_Some_2 l n) as [h Hh]; [lia|].
    assert (l' !! n = Some h) as Hn'.
    { unfold l'. rewrite IH by lia. by rewrite decide_False by lia. }
    rewrite (refreshStep_insert _ _ _ Hn').
    destruct (decide (j = n)) as [->|Hne].
    + rewrite list_lookup_insert_eq by (by eapply lookup_lt_Some).
      rewrite decide_True by lia. by rewrite Hh.
    + rewrite list_lookup_insert_ne by done. unfold l'. rewrite IH by lia.
      destruct (decide (j < n)); [by rewrite decide_True by lia|].
      by rewrite decide_False by lia.
Qed.

(** The loop computes an indexed map. *)
Lemma refreshMarketPrices_imap holdings :
  refreshMarketPrices fetchFund fetchStock holdings
  = imap (refreshOne fetchFund fetchStock) holdings.
Proof.
  apply list_eq. intros j. unfold refreshMarketPrices.
  rewrite refresh_loop_lookup by done. rewrite list_lookup_imap.
  case_decide as Hj; [done|].
  rewrite lookup_ge_None_2 by lia. done.
Qed.

Lemma refreshMarketPrices_lookup holdings i :
  refreshMarketPrices fetchFund fetchStock holdings !! i
  = refreshOne fetchFund fetchStock i <$> holdings !! i.
Proof. by rewrite refreshMarketPrices_imap, list_lookup_imap. Qed.

Lemma refreshOne_id i h : id (refreshOne fetchFund fetchStock i h) = id h.
Proof. unfold refreshOne. by destruct (fetchData _ _ i h) as [[?|]|]. Qed.

End SynchronizerFacts.

Import MarketDataService.

Example parseDecimal_samples :
  Scenario.parseDecimal "12" = Some (12 # 1) ∧
  Scenario.parseDecimal "" = None ∧
  (∃ v, Scenario.parseDecimal "11.5" = Some v ∧ (v == 23 # 2)%Q).
Proof. split_and!; [done | done | eexists; split; [reflexivity | by vm_compute]]. Qed.

(** C3.  Sequential-sync length, order and identity.  Whatever the adapter
    calls settle to (data, [null] or a thrown error, independently for every
    holding), [refreshMarketPrices] returns a list of the same length whose
    [i]-th record has the [id] of the [i]-th input record; and a record
    whose fetch brought no data is returned as it was, so its
    [currentPrice], [yesterdayPrice], [priceDate] and [name] are the prior
    ones. *)
Theorem refresh_length_order_identity
    (fetchFund fetchStock : nat → string → FetchOutcome) (holdings : list Holding) :
  let result := refreshMarketPrices fetchFund fetchStock holdings in
  length result = length holdings ∧
  id <$> result = id <$> holdings ∧
  ∀ i h, holdings !! i = Some h →
    ∃ h', result !! i = Some h' ∧ id h' = id h ∧
          (fetchFailed (fetchData fetchFund fetchStock i h) →
           h' = h ∧ currentPrice h' = currentPrice h ∧
           yesterdayPrice h' = yesterdayPrice h ∧
           priceDate h' = priceDate h ∧ name h' = name h).
Proof.
  intros result. subst result. split_and!.
  - by rewrite refreshMarketPrices_imap, length_imap.
  - apply list_eq. intros j.
    rewrite !list_lookup_fmap, refreshMarketPrices_lookup.
    destruct (holdings !! j) as [h|]; [|done]. simpl.
    by rewrite refreshOne_id.
  - intros i h Hi. exists (refreshOne fetchFund fetchStock i h). split_and!.
    + by rewrite refreshMarketPrices_lookup, Hi.
    + apply refreshOne_id.
    + unfold refreshOne. by intros [-> | ->].
Qed.

(** Concrete scenario 5 of the specification: of three fetches the second
    one fails. *)
Lemma refresh_length_order_identity_witness :
  let outcomes := [Fulfilled (Some Scenario.negativeQuote); Rejected; Fulfilled None] in
  let holdings := [Scenario.held; Scenario.other; Scenario.existing] in
  let result := refreshMarketPrices (Scenario.feed outcomes) (Scenario.feed outcomes) holdings in
  length result = 3 ∧
  id <$> result = ["id-7"; "id-3"; "id-1"] ∧
  result !! 1 = Some Scenario.other.
Proof.
  pose proof (refresh_length_order_identity
                (Scenario.feed [Fulfilled (Some Scenario.negativeQuote); Rejected; Fulfilled None])
                (Scenario.feed [Fulfilled (Some Scenario.negativeQuote); Rejected; Fulfilled None])
                [Scenario.held; Scenario.other; Scenario.existing]) as (Hlen & Hids & Hkeep).
  split_and!; [exact Hlen | exact Hids |].
  destruct (Hkeep 1 Scenario.other eq_refl) as (h' & Hh' & _ & Hfail).
  destruct Hfail as [-> _]; [by right | exact Hh'].
Defined.

(** C8, as the specification states it, fails: a negative price returned by
    the adapter is merged back.  The holding below had [currentPrice = 10];
    the adapter returned [-1], which is not positive, and the refreshed
    record carries [-1]. *)
Lemma refresh_takes_negative_price :
  let fetch := Scenario.feed [Fulfilled (Some Scenario.negativeQuote)] in
  p_currentPrice Scenario.negativeQuote = Some (-1)%Q ∧
  ¬ (0 < -1)%Q ∧
  currentPrice Scenario.held = 10%Q ∧
  ∃ h', refreshMarketPrices fetch fetch [Scenario.held] = [h'] ∧
        currentPrice h' = (-1)%Q ∧
        currentPrice h' ≠ currentPrice Scenario.held.
Proof.
  split_and!; [done | by vm_compute | done |].
  eexists. split_and!; [reflexivity | done | done].
Qed.

(** C8, amended.  For every holding [h] of the input, the refreshed record
    at its position has the adapter's [currentPrice] exactly when the
    adapter returned data with a [currentPrice] that is present and
    non-zero (positive or negative); it keeps its prior [currentPrice] when
    the returned value is zero or absent, and when the fetch brought no
    data. *)
Theorem refresh_currentPrice_merge_back
    (fetchFund fetchStock : nat → string → FetchOutcome)
    (holdings : list Holding) (i : nat) (h : Holding) :
  holdings !! i = Some h →
  ∃ h', refreshMarketPrices fetchFund fetchStock holdings !! i = Some h' ∧
        (∀ data v, fetchData fetchFund fetchStock i h = Fulfilled (Some data) →
                   p_currentPrice data = Some v → ¬ (v == 0)%Q →
                   currentPrice h' = v) ∧
        (∀ data, fetchData fetchFund fetchStock i h = Fulfilled (Some data) →
                 unusable (p_currentPrice data) →
                 currentPrice h' = currentPrice h) ∧
        (fetchFailed (fetchData fetchFund fetchStock i h) →
         currentPrice h' = currentPrice h).
Proof.
  intros Hi. exists (refreshOne fetchFund fetchStock i h). split_and!.
  - by rewrite refreshMarketPrices_lookup, Hi.
  - intros data v Hd Hv Hnz. unfold refreshOne. rewrite Hd.
    cbn [refreshed currentPrice]. rewrite Hv. cbn [JS.or_number].
    by apply JS_truthy_true in Hnz as ->.
  - intros data Hd Hu. unfold refreshOne. rewrite Hd.
    cbn [refreshed currentPrice]. destruct Hu as [-> | (v & -> & Hz)]; [done|].
    cbn [JS.or_number]. by apply JS_truthy_false in Hz as ->.
  - unfold refreshOne. by intros [-> | ->].
Qed.

Lemma refresh_currentPrice_merge_back_witness :
  let fetch := Scenario.feed [Fulfilled (Some Scenario.negativeQuote)] in
  ∃ h', refreshMarketPrices fetch fetch [Scenario.held] !! 0 = Some h' ∧
        (∀ data v, fetchData fetch fetch 0 Scenario.held = Fulfilled (Some data) →
                   p_currentPrice data = Some v → ¬ (v == 0)%Q →
                   currentPrice h' = v) ∧
        (∀ data, fetchData fetch fetch 0 Scenario.held = Fulfilled (Some data) →
                 unusable (p_currentPrice data) →
                 currentPrice h' = currentPrice Scenario.held) ∧
        (fetchFailed (fetchData fetch fetch 0 Scenario.held) →
         currentPrice h' = currentPrice Scenario.held).
Proof.
  apply (refresh_currentPrice_merge_back
           (Scenario.feed [Fulfilled (Some Scenario.negativeQuote)])
           (Scenario.feed [Fulfilled (Some Scenario.negativeQuote)])
           [Scenario.held] 0 Scenario.held).
  reflexivity.
Defined.

(** The day profit/loss of a single record, spelled out. *)
Lemma dayProfitLoss_unfold h :
  dayProfitLoss h =
    match yesterdayPrice h with
    | Some y => if JS.truthy_number y
                then (0 + (currentPrice h - y) * quantity h)%Q else 0%Q
    | None => 0%Q
    end.
Proof. reflexivity. Qed.

(** C2, as the specification states it, fails: the fallback is the price the
    holding had before the refresh, not the one just written.  The fund
    adapter, given a record with the estimate ["12"] and a net value that
    does not parse, returns [currentPrice = 12] and [yesterdayPrice = 0];
    the refreshed record of a holding that stood at [10] then has
    [currentPrice = 12] and [yesterdayPrice = 10], and its day profit/loss
    is [(12 - 10) * 100 = 200], not zero. *)
Lemma refresh_fallback_is_prior_price :
  ∃ data h',
    fetchFundData Scenario.parseDecimal "161725" (ScriptCalls Scenario.estimateOnly)
      = Some (Some data) ∧
    p_currentPrice data = Some (12 # 1) ∧
    p_yesterdayPrice data = Some 0%Q ∧
    refreshMarketPrices (Scenario.feed [Fulfilled (Some data)])
                        (Scenario.feed [Fulfilled (Some data)]) [Scenario.held] = [h'] ∧
    currentPrice h' = 12 # 1 ∧
    yesterdayPrice h' = Some 10%Q ∧
    yesterdayPrice h' ≠ Some (currentPrice h') ∧
    (dayProfitLoss h' == 200)%Q ∧
    ¬ (dayProfitLoss h' == 0)%Q.
Proof.
  eexists. eexists. split_and!; try reflexivity; by vm_compute.
Qed.

(** C2, amended.  For every holding [h] of the input for which the adapter
    returns data without a usable [yesterdayPrice] (absent or zero), the
    refreshed record's [yesterdayPrice] is the [currentPrice] that [h] had
    before this refresh step.  Hence the day profit/loss computed from the
    refreshed record is zero whenever this step did not also replace
    [currentPrice] (the returned [currentPrice] was absent or zero); in
    general it is [(new currentPrice - prior currentPrice) * quantity] when
    the prior [currentPrice] is non-zero, and zero when it is zero. *)
Theorem refresh_yesterdayPrice_fallback
    (fetchFund fetchStock : nat → string → FetchOutcome)
    (holdings : list Holding) (i : nat) (h : Holding) (data : PartialHolding) :
  holdings !! i = Some h →
  fetchData fetchFund fetchStock i h = Fulfilled (Some data) →
  unusable (p_yesterdayPrice data) →
  ∃ h', refreshMarketPrices fetchFund fetchStock holdings !! i = Some h' ∧
        yesterdayPrice h' = Some (currentPrice h) ∧
        (unusable (p_currentPrice data) →
         currentPrice h' = currentPrice h ∧ (dayProfitLoss h' == 0)%Q) ∧
        (¬ (currentPrice h == 0)%Q →
         (dayProfitLoss h' == (currentPrice h' - currentPrice h) * quantity h)%Q) ∧
        ((currentPrice h == 0)%Q → (dayProfitLoss h' == 0)%Q).
Proof.
  intros Hi Hd Hy. exists (refreshOne fetchFund fetchStock i h).
  assert (refreshOne fetchFund fetchStock i h = refreshed h data) as E.
  { unfold refreshOne. by rewrite Hd. }
  assert (yesterdayPrice (refreshed h data) = Some (currentPrice h)) as Ey.
  { cbn [refreshed yesterdayPrice]. f_equal.
    destruct Hy as [-> | (v & -> & Hz)]; [done|].
    cbn [JS.or_number]. by apply JS_truthy_false in Hz as ->. }
  rewrite E. split_and!.
  - by rewrite refreshMarketPrices_lookup, Hi, <- E.
  - exact Ey.
  - intros Hc.
    assert (currentPrice (refreshed h data) = currentPrice h) as Ec.
    { cbn [refreshed currentPrice]. destruct Hc as [-> | (v & -> & Hz)]; [done|].
      cbn [JS.or_number]. by apply JS_truthy_false in Hz as ->. }
    split; [exact Ec|]. rewrite dayProfitLoss_unfold, Ey, Ec.
    destruct (JS.truthy_number (currentPrice h)); [ring | reflexivity].
  - intros Hnz. rewrite dayProfitLoss_unfold, Ey.
    apply JS_truthy_true in Hnz as ->. cbn [refreshed quantity]. ring.
  - intros Hz. rewrite dayProfitLoss_unfold, Ey.
    apply JS_truthy_false in Hz as ->. reflexivity.
Qed.

Lemma refresh_yesterdayPrice_fallback_witness :
  let data := {| p_name := None; p_currentPrice := Some 12%Q;
                 p_yesterdayPrice := None; p_priceDate := None |} in
  let fetch := Scenario.feed [Fulfilled (Some data)] in
  ∃ h', refreshMarketPrices fetch fetch [Scenario.held] !! 0 = Some h' ∧
        yesterdayPrice h' = Some (currentPrice Scenario.held) ∧
        (unusable (p_currentPrice data) →
         currentPrice h' = currentPrice Scenario.held ∧ (dayProfitLoss h' == 0)%Q) ∧
        (¬ (currentPrice Scenario.held == 0)%Q →
         (dayProfitLoss h' ==
            (currentPrice h' - currentPrice Scenario.held) * quantity Scenario.held)%Q) ∧
        ((currentPrice Scenario.held == 0)%Q → (dayProfitLoss h' == 0)%Q).
Proof.
  apply (refresh_yesterdayPrice_fallback
           (Scenario.feed [Fulfilled (Some (mkPartial None (Some 12%Q) None None))])
           (Scenario.feed [Fulfilled (Some (mkPartial None (Some 12%Q) None None))])
           [Scenario.held] 0 Scenario.held (mkPartial None (Some 12%Q) None None)).
  - reflexivity.
  - reflexivity.
  - by left.
Defined.

(** C9.  Fund quote resolution.  For a response record whose [fundcode] is
    the requested code, [fetchFundData] resolves with a quote such that:
    [currentPrice] is the estimate [gsz] when it parses to a positive
    number, and otherwise the net value [dwjz], or [0] when that does not
    parse; [yesterdayPrice] is always the net value, or [0] when it does not
    parse; [priceDate] is [gztime] exactly when the estimate was used, and
    [jzrq] otherwise.  [parseFloat] is arbitrary. *)
Theorem fund_quote_resolution
    (parseFloat : string → JS.parsed) (code : string) (data : FundData) :
  fundcode data = code →
  let nav := match parseFloat (dwjz data) with Some n => n | None => 0%Q end in
  ∃ r, fetchFundData parseFloat code (ScriptCalls data) = Some (Some r) ∧
       p_yesterdayPrice r = Some nav ∧
       (∀ est, parseFloat (gsz data) = Some est → (0 < est)%Q →
               p_currentPrice r = Some est ∧ p_priceDate r = Some (gztime data)) ∧
       (¬ (∃ est, parseFloat (gsz data) = Some est ∧ (0 < est)%Q) →
        p_currentPrice r = Some nav ∧ p_priceDate r = Some (jzrq data)).
Proof.
  intros Hcode nav. unfold fetchFundData, jsonpgz.
  rewrite decide_True by done. cbn [fmap option_fmap option_map].
  eexists. split; [reflexivity|]. cbn [p_yesterdayPrice p_currentPrice p_priceDate].
  split_and!.
  - reflexivity.
  - intros est Hest Hpos. rewrite Hest. cbn [JS.isNaN JS.parsed_gt negb andb].
    apply JS_gt_true in Hpos as ->. done.
  - intros Hno. destruct (parseFloat (gsz data)) as [est|] eqn:Hest.
    + cbn [JS.isNaN JS.parsed_gt negb andb].
      destruct (JS.gt est 0) eqn:Hgt; [|done].
      exfalso. apply Hno. exists est. split; [done | by apply JS_gt_true].
    + done.
Qed.

Lemma fund_quote_resolution_witness :
  ∃ r, fetchFundData Scenario.parseDecimal "161725" (ScriptCalls Scenario.fullQuote)
         = Some (Some r) ∧
       p_yesterdayPrice r =
         Some (match Scenario.parseDecimal "11.5" with Some n => n | None => 0%Q end) ∧
       (∀ est, Scenario.parseDecimal "12" = Some est → (0 < est)%Q →
               p_currentPrice r = Some est ∧ p_priceDate r = Some "2024-03-04 14:30") ∧
       (¬ (∃ est, Scenario.parseDecimal "12" = Some est ∧ (0 < est)%Q) →
        p_currentPrice r =
          Some (match Scenario.parseDecimal "11.5" with Some n => n | None => 0%Q end) ∧
        p_priceDate r = Some "2024-03-01").
Proof.
  apply (fund_quote_resolution Scenario.parseDecimal "161725" Scenario.fullQuote).
  reflexivity.
Defined.

(** ** The profit sharing calculator *)

Import ProfitSharing.

Local Open Scope Q_scope.

(** Concrete scenarios 2, 3 and 4 of the specification. *)
Example scenario_four_percent :
  sharingAmount (calculation 100000 4000) == 200 ∧
  guaranteeAmount (calculation 100000 4000) = 0.
Proof. by vm_compute. Qed.

Example scenario_eight_percent :
  sharingAmount (calculation 100000 8000) == 1900 ∧
  guaranteeAmount (calculation 100000 8000) = 0.
Proof. by vm_compute. Qed.

Example scenario_loss :
  sharingAmount (calculation 100000 (-2500)) = 0 ∧
  guaranteeAmount (calculation 100000 (-2500)) == 2500.
Proof. by vm_compute. Qed.

(** The profit rate against a threshold, for a positive cost. *)
Lemma rate_le_iff (c p t : Q) : 0 < c → (p / c <= t ↔ p <= t * c).
Proof.
  intros Hc. split; intros H.
  - destruct (Qlt_le_dec (t * c) p) as [Hlt|]; [|done].
    apply Qlt_shift_div_l in Hlt; [|done]. lra.
  - by apply Qle_shift_div_r.
Qed.

Lemma rate_gt_iff (c p t : Q) : 0 < c → (t < p / c ↔ t * c < p).
Proof.
  intros Hc. split; intros H.
  - destruct (Qlt_le_dec (t * c) p) as [|Hle]; [done|].
    apply Qle_shift_div_r in Hle; [|done]. lra.
  - by apply Qlt_shift_div_l.
Qed.

(** With a negative cost a profit gives a rate that is not positive. *)
Lemma rate_nonpos (c p : Q) : c < 0 → 0 <= p → p / c <= 0.
Proof.
  intros Hc Hp.
  assert (p / c == - (p / - c)) as -> by (field; lra).
  assert (0 <= p / - c); [|lra].
  apply Qle_shift_div_l; lra.
Qed.

(** The three tiers of the sharing amount for a positive cost. *)
Lemma sharing_tiers (c p : Q) :
  0 < c →
  (p <= thresholdLow * c ∧ sharingAmount (calculation c p) = 0) ∨
  (thresholdLow * c < p ∧ p <= thresholdHigh * c ∧
   sharingAmount (calculation c p) = sharingMiddle c p) ∨
  (thresholdHigh * c < p ∧ sharingAmount (calculation c p) = sharingHigh c p).
Proof.
  intros Hc. unfold calculation, thresholdLow, thresholdHigh.
  assert (JS.eq c 0 = false) as -> by (apply JS_eq_false; lra).
  destruct (JS.lt p 0) eqn:Hloss.
  { apply JS_lt_true in Hloss. left. split; [lra | done]. }
  destruct (JS.le (p / c) (3 # 100)) eqn:Hlow.
  { apply JS_le_true, rate_le_iff in Hlow; [|done]. left. by split. }
  assert (JS.gt (p / c) (3 # 100) = true) as ->.
  { unfold JS.gt. unfold JS.le in Hlow. by rewrite Hlow. }
  apply JS_le_false, rate_gt_iff in Hlow; [|done]. cbn [andb].
  destruct (JS.le (p / c) (5 # 100)) eqn:Hhigh.
  - apply JS_le_true, rate_le_iff in Hhigh; [|done]. right. left. by split_and!.
  - apply JS_le_false, rate_gt_iff in Hhigh; [|done]. right. right. by split.
Qed.

(** Between two profits the sharing amount rises, and by at most half of
    the difference. *)
Lemma sharing_slope (c p1 p2 : Q) :
  0 < c → p1 <= p2 →
  0 <= sharingAmount (calculation c p2) - sharingAmount (calculation c p1)
    <= (1 # 2) * (p2 - p1).
Proof.
  intros Hc Hle.
  destruct (sharing_tiers c p1 Hc) as [(H1 & ->) | [(H1 & H1' & ->) | (H1 & ->)]];
  destruct (sharing_tiers c p2 Hc) as [(H2 & ->) | [(H2 & H2' & ->) | (H2 & ->)]];
    unfold sharingMiddle, sharingHigh, thresholdLow, thresholdHigh in *; lra.
Qed.

(** C7.  Continuity and monotonicity of the sharing amount.  For a fixed
    positive [totalCost], as a function of [totalProfitLoss]:
    - it is [0] whenever the rate [totalProfitLoss / totalCost] is at most
      [0.03];
    - the code's tiers are the value [0], [sharingMiddle] for a rate in
      [(0.03, 0.05]] and [sharingHigh] above, and neighbouring tiers agree
      at the boundary: [sharingMiddle] is [0] at rate [0.03], and
      [sharingHigh] equals [sharingMiddle] at rate [0.05];
    - it is continuous everywhere, two values differing by at most half the
      difference of the profits;
    - it is monotonically non-decreasing. *)
Theorem sharing_continuous_monotone (totalCost : Q) :
  0 < totalCost →
  let sharing := λ totalProfitLoss,
                   sharingAmount (calculation totalCost totalProfitLoss) in
  (∀ p, p / totalCost <= 3 # 100 → sharing p = 0) ∧
  (∀ p, 3 # 100 < p / totalCost → p / totalCost <= 5 # 100 →
        sharing p = sharingMiddle totalCost p) ∧
  (∀ p, 5 # 100 < p / totalCost → sharing p = sharingHigh totalCost p) ∧
  (∀ p, p / totalCost == 3 # 100 → sharingMiddle totalCost p == 0) ∧
  (∀ p, p / totalCost == 5 # 100 →
        sharingHigh totalCost p == sharingMiddle totalCost p) ∧
  (∀ p1 p2, Qabs (sharing p1 - sharing p2) <= (1 # 2) * Qabs (p1 - p2)) ∧
  (∀ p1 p2, p1 <= p2 → sharing p1 <= sharing p2).
Proof.
  intros Hc sharing. subst sharing. cbv beta.
  assert (∀ p t, p / totalCost == t → p == t * totalCost) as Hrate.
  { intros p t E. apply Qle_antisym.
    - apply (rate_le_iff totalCost p t Hc). rewrite E. apply Qle_refl.
    - destruct (Qlt_le_dec p (t * totalCost)) as [Hlt|]; [|done].
      apply Qlt_shift_div_r in Hlt; [|done]. lra. }
  split_and!.
  - intros p Hp%rate_le_iff; [|done].
    destruct (sharing_tiers totalCost p Hc) as [(_ & ->) | [(H & _) | (H & _)]];
      [done | |]; unfold thresholdLow, thresholdHigh in H; lra.
  - intros p Hlo%rate_gt_iff Hhi%rate_le_iff; [|done..].
    destruct (sharing_tiers totalCost p Hc) as [(H & _) | [(_ & _ & ->) | (H & _)]];
      [| done |]; unfold thresholdLow, thresholdHigh in H; lra.
  - intros p Hhi%rate_gt_iff; [|done].
    destruct (sharing_tiers totalCost p Hc) as [(H & _) | [(_ & H & _) | (_ & ->)]];
      [| | done]; unfold thresholdLow, thresholdHigh in H; lra.
  - intros p E%Hrate. unfold sharingMiddle, thresholdLow. lra.
  - intros p E%Hrate. unfold sharingHigh, sharingMiddle, thresholdLow, thresholdHigh. lra.
  - intros p1 p2. destruct (Qlt_le_dec p2 p1) as [Hlt|Hle].
    + pose proof (sharing_slope totalCost p2 p1 Hc (Qlt_le_weak _ _ Hlt)) as [H0 H1].
      rewrite !Qabs_pos by lra. exact H1.
    + pose proof (sharing_slope totalCost p1 p2 Hc Hle) as [H0 H1].
      rewrite !Qabs_neg by lra. lra.
  - intros p1 p2 Hle.
    pose proof (sharing_slope totalCost p1 p2 Hc Hle) as [H0 _]. lra.
Qed.

Lemma sharing_continuous_monotone_witness :
  let sharing := λ totalProfitLoss,
                   sharingAmount (calculation 100000 totalProfitLoss) in
  (∀ p, p / 100000 <= 3 # 100 → sharing p = 0) ∧
  (∀ p, 3 # 100 < p / 100000 → p / 100000 <= 5 # 100 →
        sharing p = sharingMiddle 100000 p) ∧
  (∀ p, 5 # 100 < p / 100000 → sharing p = sharingHigh 100000 p) ∧
  (∀ p, p / 100000 == 3 # 100 → sharingMiddle 100000 p == 0) ∧
  (∀ p, p / 100000 == 5 # 100 → sharingHigh 100000 p == sharingMiddle 100000 p) ∧
  (∀ p1 p2, Qabs (sharing p1 - sharing p2) <= (1 # 2) * Qabs (p1 - p2)) ∧
  (∀ p1 p2, p1 <= p2 → sharing p1 <= sharing p2).
Proof.
  apply (sharing_continuous_monotone 100000). reflexivity.
Defined.

(** C10.  Sharing and guarantee are non-negative and mutually exclusive.
    For every [totalCost] and [totalProfitLoss] both amounts are at least
    [0] and one of them is exactly [0]; the guarantee is non-zero only if
    [totalCost] is non-zero and [totalProfitLoss < 0]; the sharing amount
    is non-zero only if [totalProfitLoss >= 0] and the profit rate exceeds
    [0.03]. *)
Theorem sharing_guarantee_exclusive (totalCost totalProfitLoss : Q) :
  let r := calculation totalCost totalProfitLoss in
  0 <= sharingAmount r ∧
  0 <= guaranteeAmount r ∧
  (sharingAmount r = 0 ∨ guaranteeAmount r = 0) ∧
  (¬ guaranteeAmount r == 0 → ¬ totalCost == 0 ∧ totalProfitLoss < 0) ∧
  (¬ sharingAmount r == 0 →
   0 <= totalProfitLoss ∧ 3 # 100 < totalProfitLoss / totalCost).
Proof.
  intros r. subst r. unfold calculation, thresholdLow, thresholdHigh.
  destruct (JS.eq totalCost 0) eqn:Hzero.
  { cbn. split_and!; [lra | lra | by left | intros []; reflexivity | intros []; reflexivity]. }
  apply JS_eq_false in Hzero.
  destruct (JS.lt totalProfitLoss 0) eqn:Hloss.
  { apply JS_lt_true in Hloss. cbn [sharingAmount guaranteeAmount].
    split_and!; [lra | apply Qabs_nonneg | by left | done | intros []; reflexivity]. }
  apply JS_lt_false in Hloss.
  destruct (JS.le (totalProfitLoss / totalCost) (3 # 100)) eqn:Hlow.
  { cbn. split_and!; [lra | lra | by left | intros []; reflexivity | intros []; reflexivity]. }
  apply JS_le_false in Hlow.
  assert (0 < totalCost) as Hc.
  { destruct (Qlt_le_dec 0 totalCost) as [|Hneg]; [done|]. exfalso.
    assert (totalCost < 0) as Hlt.
    { apply Qle_lt_or_eq in Hneg as [|]; [done | contradiction]. }
    pose proof (rate_nonpos totalCost totalProfitLoss Hlt Hloss). lra. }
  pose proof (proj1 (rate_gt_iff totalCost totalProfitLoss _ Hc) Hlow) as Hp3.
  destruct (JS.gt _ _ && JS.le (totalProfitLoss / totalCost) (5 # 100)) eqn:Hmid;
    cbn [sharingAmount guaranteeAmount].
  - split_and!; [| lra | by right | intros []; reflexivity | done].
    unfold sharingMiddle, thresholdLow. lra.
  - split_and!; [| lra | by right | intros []; reflexivity | done].
    assert (JS.le (totalProfitLoss / totalCost) (5 # 100) = false) as Hhigh.
    { apply andb_false_iff in Hmid as [Hgt|]; [|done].
      apply JS_gt_false in Hgt. lra. }
    apply JS_le_false, rate_gt_iff in Hhigh; [|done].
    unfold sharingHigh, thresholdLow, thresholdHigh. lra.
Qed.

Local Close Scope Q_scope.

(** * Further properties of the code *)

(** ** Sums over holding lists *)

Section Sums.
Context {A : Type}.
Implicit Types (f : A → Q) (l : list A).

Lemma sumOf_nil f : sumOf f [] = 0%Q.
Proof. reflexivity. Qed.

Lemma sumOf_cons f x l : sumOf f (x :: l) = (f x + sumOf f l)%Q.
Proof. reflexivity. Qed.

(** A left fold whose step adds [f h] to the accumulator computes the sum. *)
Lemma fold_left_sumOf (g : Q → A → Q) f l (a : Q) :
  (∀ acc h, (g acc h == acc + f h)%Q) →
  (fold_left g l a == a + sumOf f l)%Q.
Proof.
  intros Hg. revert a. induction l as [|x l IH]; intros a; cbn [fold_left].
  - rewrite sumOf_nil. ring.
  - rewrite sumOf_cons, IH, Hg. ring.
Qed.

End Sums.

Lemma totalMarketValue_sum l : (totalMarketValue (summary l) == sumOf value l)%Q.
Proof.
  cbn [summary totalMarketValue]. rewrite (fold_left_sumOf _ value); [ring|].
  intros. reflexivity.
Qed.


(** ** The aggregator *)


(** X3.  Day profit/loss has a zero baseline: a holding whose
    [yesterdayPrice] is missing or [0] adds nothing at all to
    [totalDayProfitLoss], wherever it stands in the list; the total is the
    very same number as without it. *)
Theorem day_profit_zero_baseline (l1 l2 : list Holding) (h : Holding) :
  unusable (yesterdayPrice h) →
  totalDayProfitLoss (summary (l1 ++ h :: l2)) = totalDayProfitLoss (summary (l1 ++ l2)).
Proof.
  intros Hu. cbn [summary totalDayProfitLoss].
  rewrite !fold_left_app. cbn [fold_left]. f_equal.
  unfold addDayPL. destruct Hu as [-> | (y & -> & Hz)]; [done|].
  by apply JS_truthy_false in Hz as ->.
Qed.

Lemma day_profit_zero_baseline_witness :
  totalDayProfitLoss (summary ([Scenario.held] ++ Scenario.other :: [Scenario.existing]))
  = totalDayProfitLoss (summary ([Scenario.held] ++ [Scenario.existing])).
Proof.
  apply (day_profit_zero_baseline [Scenario.held] [Scenario.existing] Scenario.other).
  by left.
Defined.

(** ** More on the position merge engine *)

Lemma list_find_sameAsset_None (l : list Holding) (incoming : Holding) :
  key incoming ∉ key <$> l → list_find (sameAsset incoming) l = None.
Proof.
  intros Hk. apply list_find_None, Forall_forall. intros h Hh Hs%sameAsset_key.
  apply Hk. rewrite <- Hs. by apply list_elem_of_fmap_2.
Qed.

Lemma fold_mergeEntry_keys (batch l : list Holding) (ids : list string) :
  ∃ added,
    key <$> (fold_left mergeEntry batch (l, ids)).1 = (key <$> l) ++ added ∧
    NoDup added ∧
    ∀ k, k ∈ added ↔ k ∈ key <$> batch ∧ k ∉ key <$> l.
Proof.
  revert l ids. induction batch as [|x batch IH]; intros l ids.
  - exists []. cbn [fold_left fst]. rewrite app_nil_r.
    split_and!; [done | constructor |].
    intros k. split; [by intros ?%elem_of_nil | by intros [?%elem_of_nil _]].
  - cbn [fold_left]. pose proof (mergeEntry_keys l ids x) as Hk.
    destruct (mergeEntry (l, ids) x) as [l1 ids1]. cbn [fst] in Hk.
    destruct (IH l1 ids1) as (added & E & Hnd & Hin). rewrite E.
    rewrite fmap_cons.
    destruct (decide (key x ∈ key <$> l)) as [Hx|Hx]; rewrite Hk in Hin |- *.
    + exists added. split_and!; [done | done |].
      intros k. rewrite Hin, elem_of_cons. split.
      * intros [Hb Hn]. split; [by right | done].
      * intros [[->|Hb] Hn]; [done | by split].
    + exists (key x :: added). split_and!.
      * by rewrite <- app_assoc.
      * apply NoDup_cons. split; [|done].
        intros [_ Hn]%Hin. apply Hn, elem_of_app. right. by left.
      * intros k. rewrite !elem_of_cons, Hin, not_elem_of_app. split.
        -- intros [->|(Hb & Hn & _)]; [by split; [left|] | by split; [right|]].
        -- intros [[->|Hb] Hn]; [by left|].
           destruct (decide (k = key x)) as [->|Hne]; [by left|].
           right. split_and!; [done | done |].
           by intros ->%list_elem_of_singleton.
Qed.

(** X5.  Nothing is lost and nothing is invented by a merge: the
    [(code, type)] keys after [handleAddHoldings] are the keys held before,
    at the same positions, followed by each key of the batch that was not
    held, once.  So the list grows by the number of distinct new keys, never
    by more than the size of the batch. *)
Theorem merge_keys_exact (holdings newHoldings : list Holding) :
  let result := (handleAddHoldings holdings newHoldings).1 in
  ∃ added,
    key <$> result = (key <$> holdings) ++ added ∧
    NoDup added ∧
    (∀ k, k ∈ added ↔ k ∈ key <$> newHoldings ∧ k ∉ key <$> holdings) ∧
    length result = length holdings + length added ∧
    length added ≤ length newHoldings.
Proof.
  intros result. subst result. unfold handleAddHoldings.
  destruct (fold_mergeEntry_keys newHoldings holdings []) as (added & E & Hnd & Hin).
  exists added. split_and!; [done | done | done | |].
  - apply (f_equal length) in E. by rewrite length_app, !length_fmap in E.
  - rewrite <- (length_fmap key newHoldings). apply submseteq_length.
    apply NoDup_submseteq; [done|]. intros k Hk. by apply Hin in Hk as [? _].
Qed.

(** One step records the id of the holding that now carries the incoming
    entry's key. *)
Lemma mergeEntry_affected (l : list Holding) (ids : list string) (incoming : Holding) :
  ∃ i h, (mergeEntry (l, ids) incoming).1 !! i = Some h ∧
         key h = key incoming ∧
         (mergeEntry (l, ids) incoming).2 = ids ++ [id h].
Proof.
  destruct (list_find (sameAsset incoming) l) as [[i e]|] eqn:F.
  - rewrite (mergeEntry_found _ _ _ _ _ F). cbn [fst snd].
    apply list_find_Some in F as (Hi & Hs%sameAsset_key & _).
    exists i, (merged e incoming). split_and!; [|done|done].
    apply list_lookup_insert_eq. by eapply lookup_lt_Some.
  - rewrite (mergeEntry_fresh _ _ _ F). cbn [fst snd].
    exists (length l), incoming. split_and!; [|done|done].
    by apply list_lookup_middle.
Qed.

Lemma fold_mergeEntry_affected (batch l : list Holding) (ids : list string) :
  ∃ newIds,
    (fold_left mergeEntry batch (l, ids)).2 = ids ++ newIds ∧
    length newIds = length batch ∧
    ∀ j incoming, batch !! j = Some incoming →
      ∃ i h, (fold_left mergeEntry batch (l, ids)).1 !! i = Some h ∧
             key h = key incoming ∧ newIds !! j = Some (id h).
Proof.
  revert l ids. induction batch as [|x batch IH]; intros l ids.
  - exists []. cbn [fold_left snd]. rewrite app_nil_r. split_and!; done.
  - cbn [fold_left].
    destruct (mergeEntry_affected l ids x) as (i1 & h1 & H1 & K1 & E1).
    destruct (mergeEntry (l, ids) x) as [l1 ids1]. cbn [fst snd] in H1, E1. subst ids1.
    destruct (IH l1 (ids ++ [id h1])) as (newIds & E & Hlen & Hall).
    exists (id h1 :: newIds). split_and!.
    + by rewrite E, <- app_assoc.
    + cbn [length]. by rewrite Hlen.
    + intros [|j] incoming Hj.
      * injection Hj as <-.
        destruct (fold_mergeEntry_frame batch l1 (ids ++ [id h1]) i1 h1 H1)
          as (h' & H' & F' & _).
        exists i1, h'. split_and!; [done | |].
        -- rewrite (sameFrame_key _ _ F'). done.
        -- destruct F' as (-> & _). done.
      * apply (Hall j incoming Hj).
Qed.

(** X6.  Every incoming entry gets its prices fetched.  [handleAddHoldings]
    records one id per incoming entry, in order; the [j]-th recorded id is
    the id of a holding of the new list that carries the [j]-th entry's
    [(code, type)], and that holding is among the [itemsToRefresh] handed
    to [refreshMarketPrices]. *)
Theorem merge_affected_ids (holdings newHoldings : list Holding) :
  let st := handleAddHoldings holdings newHoldings in
  length st.2 = length newHoldings ∧
  ∀ j incoming, newHoldings !! j = Some incoming →
    ∃ h, h ∈ st.1 ∧ key h = key incoming ∧ st.2 !! j = Some (id h) ∧
         h ∈ itemsToRefresh st.
Proof.
  intros st. subst st. unfold handleAddHoldings.
  destruct (fold_mergeEntry_affected newHoldings holdings [])
    as (newIds & E & Hlen & Hall).
  cbn [app] in E. rewrite E. split; [done|].
  intros j incoming Hj. destruct (Hall j incoming Hj) as (i & h & Hi & Hk & Hid).
  exists h. assert (h ∈ (fold_left mergeEntry newHoldings (holdings, [])).1) as Hin.
  { by eapply list_elem_of_lookup_2. }
  split_and!; [done | done | done |].
  unfold itemsToRefresh. apply list_elem_of_filter. split; [|done].
  rewrite E. by eapply list_elem_of_lookup_2.
Qed.

(** X7.  Entries that match nothing are appended verbatim.  When the keys
    of the batch are pairwise distinct and none of them is held, the new
    list is the old one followed by the batch, unchanged and in order, and
    the recorded ids are the ids of the batch. *)
Theorem merge_appends_new_entries (holdings newHoldings : list Holding) :
  NoDup (key <$> newHoldings) →
  (∀ incoming, incoming ∈ newHoldings → key incoming ∉ key <$> holdings) →
  handleAddHoldings holdings newHoldings
  = (holdings ++ newHoldings, id <$> newHoldings).
Proof.
  unfold handleAddHoldings.
  change (id <$> newHoldings) with ([] ++ (id <$> newHoldings)).
  generalize (@nil string). revert holdings.
  induction newHoldings as [|x batch IH]; intros l ids Hnd Hnew.
  - cbn [fold_left fmap list_fmap]. by rewrite !app_nil_r.
  - rewrite fmap_cons in Hnd. apply NoDup_cons in Hnd as [Hx Hnd]. cbn [fold_left].
    rewrite mergeEntry_fresh.
    2:{ apply list_find_sameAsset_None, Hnew. by left. }
    rewrite IH; [|done|].
    + rewrite fmap_cons. by rewrite <- !app_assoc.
    + intros y Hy. rewrite fmap_app, not_elem_of_app. split.
      * apply Hnew. by right.
      * cbn [fmap list_fmap]. intros E%list_elem_of_singleton.
        apply Hx. rewrite <- E. by apply list_elem_of_fmap_2.
Qed.

Lemma merge_appends_new_entries_witness :
  handleAddHoldings [Scenario.other] [Scenario.existing]
  = ([Scenario.other] ++ [Scenario.existing], id <$> [Scenario.existing]).
Proof.
  apply (merge_appends_new_entries [Scenario.other] [Scenario.existing]).
  - apply NoDup_singleton.
  - intros incoming ->%list_elem_of_singleton.
    intros E%list_elem_of_singleton. discriminate.
Defined.

(** ** Deleting and editing holdings *)

Lemma filter_all {A} (P : A → Prop) `{∀ x, Decision (P x)} (l : list A) :
  Forall P l → filter P l = l.
Proof.
  induction 1 as [|x l Hx _ IH]; [done|].
  by rewrite filter_cons_True, IH.
Qed.

Lemma filter_none {A} (P : A → Prop) `{∀ x, Decision (P x)} (l : list A) :
  Forall (λ x, ¬ P x) l → filter P l = [].
Proof.
  induction 1 as [|x l Hx _ IH]; [done|].
  by rewrite filter_cons_False, IH.
Qed.

(** With pairwise distinct ids, filtering out one id deletes one position. *)
Lemma filter_id_delete (holdings : list Holding) (i : nat) (h : Holding) :
  uniqueIds holdings → holdings !! i = Some h →
  filter (λ x, id x ≠ id h) holdings = delete i holdings.
Proof.
  unfold uniqueIds. revert i. induction holdings as [|x l IH]; intros i Hnd Hi; [done|].
  rewrite fmap_cons in Hnd. apply NoDup_cons in Hnd as [Hx Hnd].
  destruct i as [|i].
  - injection Hi as ->. rewrite filter_cons_False by (intros Hne; by apply Hne).
    cbn [delete list_delete]. apply filter_all, Forall_forall.
    intros y Hy E. apply Hx. rewrite <- E. by apply list_elem_of_fmap_2.
  - cbn [lookup list_lookup] in Hi. rewrite filter_cons_True.
    + cbn [delete list_delete]. f_equal. by apply IH.
    + intros E. apply Hx. rewrite E. apply list_elem_of_fmap_2.
      by eapply list_elem_of_lookup_2.
Qed.

(** X8.  Deleting by the id of an entry that was just added, when that id
    is not in use: if the entry was appended (its key was not held), the
    deletion restores the holdings exactly; if it was merged into an
    existing position, the deletion removes nothing, because the merged
    position keeps the id of the existing holding and the incoming id is
    dropped. *)
Theorem delete_after_add (holdings : list Holding) (incoming : Holding) :
  id incoming ∉ id <$> holdings →
  let added := (handleAddHoldings holdings [incoming]).1 in
  (key incoming ∉ key <$> holdings →
   handleDelete true added (id incoming) = holdings) ∧
  (key incoming ∈ key <$> holdings →
   handleDelete true added (id incoming) = added).
Proof.
  intros Hid added. subst added.
  assert (Forall (λ h, id h ≠ id incoming) holdings) as Hall.
  { apply Forall_forall. intros h Hh E. apply Hid. rewrite <- E.
    by apply list_elem_of_fmap_2. }
  unfold handleAddHoldings, handleDelete. cbn [fold_left]. split.
  - intros Hk. rewrite mergeEntry_fresh by by apply list_find_sameAsset_None.
    cbn [fst]. rewrite filter_app, (filter_all _ _ Hall).
    rewrite filter_cons_False by (intros Hne; by apply Hne).
    by rewrite filter_nil, app_nil_r.
  - intros Hk. destruct (list_find (sameAsset incoming) holdings) as [[i e]|] eqn:F.
    + rewrite (mergeEntry_found _ _ _ _ _ F). cbn [fst].
      apply list_find_Some in F as (Hi & _ & _).
      apply filter_all, Forall_insert; [done|]. cbn [merged id].
      apply (Forall_lookup_1 _ _ _ _ Hall Hi).
    + exfalso. apply list_find_None in F. rewrite Forall_forall in F.
      apply list_elem_of_fmap in Hk as (h & E & Hh).
      apply (F h Hh). by apply sameAsset_key.
Qed.

Lemma delete_after_add_witness :
  let added := (handleAddHoldings [Scenario.other] [Scenario.existing]).1 in
  (key Scenario.existing ∉ key <$> [Scenario.other] →
   handleDelete true added (id Scenario.existing) = [Scenario.other]) ∧
  (key Scenario.existing ∈ key <$> [Scenario.other] →
   handleDelete true added (id Scenario.existing) = added).
Proof.
  apply (delete_after_add [Scenario.other] Scenario.existing).
  intros E%list_elem_of_singleton. discriminate.
Defined.

(** X9.  Deleting a position.  With pairwise distinct ids, a confirmed
    [handleDelete] of the id at position [i] removes exactly that position
    and keeps the others in order; distinct [(code, type)] keys stay
    distinct.  A declined confirmation changes nothing. *)
Theorem delete_position (holdings : list Holding) (i : nat) (h : Holding) :
  uniqueIds holdings →
  holdings !! i = Some h →
  let result := handleDelete true holdings (id h) in
  result = delete i holdings ∧
  (uniqueKeys holdings → uniqueKeys result) ∧
  handleDelete false holdings (id h) = holdings.
Proof.
  intros Hnd Hi result. subst result. unfold handleDelete.
  rewrite (filter_id_delete _ _ _ Hnd Hi). split_and!; [done | | done].
  unfold uniqueKeys. intros Hk. rewrite list_fmap_delete.
  eapply sublist_NoDup; [exact Hk | apply sublist_delete].
Qed.

Lemma delete_position_witness :
  let result := handleDelete true [Scenario.other; Scenario.held] (id Scenario.held) in
  result = delete 1 [Scenario.other; Scenario.held] ∧
  (uniqueKeys [Scenario.other; Scenario.held] → uniqueKeys result) ∧
  handleDelete false [Scenario.other; Scenario.held] (id Scenario.held)
  = [Scenario.other; Scenario.held].
Proof.
  apply (delete_position [Scenario.other; Scenario.held] 1 Scenario.held).
  - unfold uniqueIds. apply (bool_decide_unpack _). vm_compute. exact I.
  - reflexivity.
Defined.

(** X10.  Editing a holding.  [handleUpdateHolding] never changes the
    length of the list nor the id found at any position; it changes nothing
    when no holding has the edited id; and with pairwise distinct ids it
    replaces exactly the position that has the edited id, whatever fields
    (the [(code, type)] key included) the edit changes. *)
Theorem update_replaces_position :
  (∀ holdings u,
     length (handleUpdateHolding holdings u) = length holdings ∧
     id <$> handleUpdateHolding holdings u = id <$> holdings ∧
     (id u ∉ id <$> holdings → handleUpdateHolding holdings u = holdings)) ∧
  (∀ holdings u i h,
     uniqueIds holdings → holdings !! i = Some h → id u = id h →
     handleUpdateHolding holdings u = <[i := u]> holdings).
Proof.
  split.
  - intros holdings u. unfold handleUpdateHolding. split_and!.
    + apply length_map.
    + induction holdings as [|x l IH]; [done|]. cbn [map].
      rewrite !fmap_cons, IH. f_equal. by case_decide.
    + induction holdings as [|x l IH]; [done|]. cbn [map].
      rewrite fmap_cons, not_elem_of_cons. intros [Hx Hl].
      rewrite IH by done. by rewrite decide_False.
  - intros holdings u i h Hnd Hi Hid. unfold handleUpdateHolding, uniqueIds in *.
    revert i Hi. induction holdings as [|x l IH]; intros i Hi; [done|].
    rewrite fmap_cons in Hnd. apply NoDup_cons in Hnd as [Hx Hnd].
    destruct i as [|i]; cbn [map].
    + injection Hi as ->. rewrite decide_True by done. cbn [insert list_insert]. f_equal.
      clear IH. induction l as [|y l IH]; [done|]. cbn [map].
      rewrite fmap_cons, not_elem_of_cons in Hx. destruct Hx as [Hy Hl].
      apply NoDup_cons in Hnd as [_ Hnd].
      rewrite decide_False by congruence. f_equal. by apply IH.
    + cbn [lookup list_lookup] in Hi. cbn [insert list_insert].
      rewrite decide_False.
      * f_equal. by apply IH.
      * intros E. apply Hx. rewrite E, Hid. apply list_elem_of_fmap_2.
        by eapply list_elem_of_lookup_2.
Qed.

Lemma update_replaces_position_witness :
  handleUpdateHolding [Scenario.other; Scenario.held]
    (mkHolding "id-7" "Fund B" "000001" FUND "2024-02-02" 9 50 9 None None)
  = <[1 := mkHolding "id-7" "Fund B" "000001" FUND "2024-02-02" 9 50 9 None None]>
      [Scenario.other; Scenario.held].
Proof.
  apply (proj2 update_replaces_position [Scenario.other; Scenario.held] _ 1 Scenario.held).
  - unfold uniqueIds. apply (bool_decide_unpack _). vm_compute. exact I.
  - reflexivity.
  - reflexivity.
Defined.

(** ** What a price refresh leaves alone *)

(** The cost fold only reads [buyPrice] and [quantity]. *)
Lemma cost_fold_same_basis (l1 l2 : list Holding) (a : Q) :
  Forall2 (λ x y, buyPrice y = buyPrice x ∧ quantity y = quantity x) l1 l2 →
  fold_left (λ cost h, (cost + buyPrice h * quantity h)%Q) l2 a
  = fold_left (λ cost h, (cost + buyPrice h * quantity h)%Q) l1 a.
Proof.
  intros H. revert a. induction H as [|x y l1 l2 [Hp Hq] _ IH]; intros a; [done|].
  cbn [fold_left]. by rewrite Hp, Hq, IH.
Qed.

Lemma Forall2_imap_r {A B} (R : A → B → Prop) (f : nat → A → B) (l : list A) :
  (∀ i x, R x (f i x)) → Forall2 R l (imap f l).
Proof.
  intros H. revert f H. induction l as [|x l IH]; intros f H; [constructor|].
  cbn [imap]. constructor; [apply H|]. apply IH. intros i y. apply H.
Qed.

Lemma Forall2_map_r {A B} (R : A → B → Prop) (f : A → B) (l : list A) :
  (∀ x, R x (f x)) → Forall2 R l (map f l).
Proof. intros H. induction l; constructor; auto. Qed.

Section RefreshFrame.

Variable fetchFund fetchStock : nat → string → FetchOutcome.

Lemma refreshOne_basis i h :
  let h' := refreshOne fetchFund fetchStock i h in
  code h' = code h ∧ type h' = type h ∧ buyDate h' = buyDate h ∧
  buyPrice h' = buyPrice h ∧ quantity h' = quantity h.
Proof.
  cbv zeta. unfold refreshOne.
  by destruct (fetchData _ _ i h) as [[?|]|].
Qed.

Lemma refresh_fmap {B} (f : Holding → B) holdings :
  (∀ i h, f (refreshOne fetchFund fetchStock i h) = f h) →
  f <$> refreshMarketPrices fetchFund fetchStock holdings = f <$> holdings.
Proof.
  intros H. apply list_eq. intros j.
  rewrite !list_lookup_fmap, refreshMarketPrices_lookup.
  destruct (holdings !! j) as [h|]; [|done]. cbn [fmap option_fmap option_map].
  by rewrite H.
Qed.

(** Whether slot [i] is refreshed or kept, a filled name, price date or
    price is never replaced by an empty or zero one. *)
Lemma refreshOne_keeps i h :
  let h' := refreshOne fetchFund fetchStock i h in
  (name h ≠ "" → name h' ≠ "") ∧
  (JS.or_opt_string (priceDate h) None ≠ None →
   JS.or_opt_string (priceDate h') None ≠ None) ∧
  (¬ (currentPrice h == 0)%Q → ¬ (currentPrice h' == 0)%Q).
Proof.
  cbv zeta. unfold refreshOne.
  destruct (fetchData _ _ i h) as [[data|]|]; [|done..].
  cbn [refreshed name priceDate currentPrice]. split_and!.
  - intros Hn. unfold JS.or_string. destruct (p_name data) as [s|]; [|done].
    destruct (JS.truthy_string s) eqn:Hs; [|done].
    intros ->. discriminate.
  - intros Hd. unfold JS.or_opt_string at 2. destruct (p_priceDate data) as [s|]; [|done].
    destruct (JS.truthy_string s) eqn:Hs; [|done].
    cbn [JS.or_opt_string]. by rewrite Hs.
  - intros Hc. unfold JS.or_number. destruct (p_currentPrice data) as [v|]; [|done].
    destruct (JS.truthy_number v) eqn:Hv; [|done]. by apply JS_truthy_true.
Qed.

End RefreshFrame.

(** X11.  A price refresh never touches the position itself.  Whatever the
    adapters return, [refreshMarketPrices] leaves the [code], [type],
    [buyDate], [buyPrice] and [quantity] of every holding as they were (at
    the same positions), so the [(code, type)] keys stay pairwise distinct
    when they were, and the total cost of the portfolio is the very same
    number. *)
Theorem refresh_keeps_positions
    (fetchFund fetchStock : nat → string → FetchOutcome) (holdings : list Holding) :
  let result := refreshMarketPrices fetchFund fetchStock holdings in
  code <$> result = code <$> holdings ∧
  type <$> result = type <$> holdings ∧
  buyDate <$> result = buyDate <$> holdings ∧
  buyPrice <$> result = buyPrice <$> holdings ∧
  quantity <$> result = quantity <$> holdings ∧
  (uniqueKeys holdings → uniqueKeys result) ∧
  totalCost (summary result) = totalCost (summary holdings).
Proof.
  intros result. subst result.
  split_and!; try (apply refresh_fmap; intros i h; apply refreshOne_basis).
  - unfold uniqueKeys. intros Hk. rewrite refresh_fmap; [done|].
    intros i h. unfold key.
    by destruct (refreshOne_basis fetchFund fetchStock i h) as (-> & -> & _).
  - cbn [summary totalCost]. apply cost_fold_same_basis.
    rewrite refreshMarketPrices_imap. apply Forall2_imap_r.
    intros i h. by destruct (refreshOne_basis fetchFund fetchStock i h) as (_ & _ & _ & ? & ?).
Qed.

(** X12.  A price refresh never erases what is known.  For every holding
    of the input and whatever its fetch returns, the refreshed record at
    its position has a non-empty [name] if it had one, a non-empty
    [priceDate] if it had one, and a non-zero [currentPrice] if it had one:
    empty names, empty dates and zero prices returned by an adapter are
    ignored. *)
Theorem refresh_never_erases
    (fetchFund fetchStock : nat → string → FetchOutcome)
    (holdings : list Holding) (i : nat) (h : Holding) :
  holdings !! i = Some h →
  ∃ h', refreshMarketPrices fetchFund fetchStock holdings !! i = Some h' ∧
        (name h ≠ "" → name h' ≠ "") ∧
        (∀ d, priceDate h = Some d → d ≠ "" →
              ∃ d', priceDate h' = Some d' ∧ d' ≠ "") ∧
        (¬ (currentPrice h == 0)%Q → ¬ (currentPrice h' == 0)%Q).
Proof.
  intros Hi. exists (refreshOne fetchFund fetchStock i h).
  destruct (refreshOne_keeps fetchFund fetchStock i h) as (Hn & Hd & Hc).
  split_and!; [by rewrite refreshMarketPrices_lookup, Hi | done | | done].
  intros d Ed Hne.
  assert (JS.truthy_string d = true) as Ht.
  { unfold JS.truthy_string. apply negb_true_iff, String.eqb_neq. done. }
  destruct (priceDate (refreshOne fetchFund fetchStock i h)) as [d'|] eqn:Ed'.
  - exists d'. split; [done|]. intros ->. apply Hd.
    + rewrite Ed. cbn [JS.or_opt_string]. by rewrite Ht.
    + reflexivity.
  - exfalso. apply Hd; [|reflexivity].
    rewrite Ed. cbn [JS.or_opt_string]. by rewrite Ht.
Qed.

Lemma refresh_never_erases_witness :
  let fetch := Scenario.feed [Fulfilled (Some (mkPartial (Some "") (Some 0%Q) None (Some "")))] in
  ∃ h', refreshMarketPrices fetch fetch [Scenario.held] !! 0 = Some h' ∧
        (name Scenario.held ≠ "" → name h' ≠ "") ∧
        (∀ d, priceDate Scenario.held = Some d → d ≠ "" →
              ∃ d', priceDate h' = Some d' ∧ d' ≠ "") ∧
        (¬ (currentPrice Scenario.held == 0)%Q → ¬ (currentPrice h' == 0)%Q).
Proof.
  apply (refresh_never_erases
           (Scenario.feed [Fulfilled (Some (mkPartial (Some "") (Some 0%Q) None (Some "")))])
           (Scenario.feed [Fulfilled (Some (mkPartial (Some "") (Some 0%Q) None (Some "")))])
           [Scenario.held] 0 Scenario.held).
  reflexivity.
Defined.

Lemma or_number_idem (a : option Q) (b : Q) :
  JS.or_number a (JS.or_number a b) = JS.or_number a b.
Proof. unfold JS.or_number. destruct a as [v|]; [|done]. by destruct (JS.truthy_number v). Qed.

Lemma or_string_idem (a : option string) (b : string) :
  JS.or_string a (JS.or_string a b) = JS.or_string a b.
Proof. unfold JS.or_string. destruct a as [v|]; [|done]. by destruct (JS.truthy_string v). Qed.

Lemma or_opt_string_idem (a b : option string) :
  JS.or_opt_string a (JS.or_opt_string a b) = JS.or_opt_string a b.
Proof. unfold JS.or_opt_string. destruct a as [v|]; [|done]. by destruct (JS.truthy_string v). Qed.

(** X13.  Refreshing twice with the same answers.  Suppose the adapters
    answer by position and code alike in two consecutive refreshes, and
    every quote that lacks a usable [yesterdayPrice] also lacks a usable
    [currentPrice].  Then the second refresh changes nothing:
    [refreshMarketPrices] is idempotent.  (A quote with a new price but no
    previous close is the one case where the second refresh differs: it
    moves [yesterdayPrice] to the price written by the first.) *)
Theorem refresh_idempotent
    (fetchFund fetchStock : nat → string → FetchOutcome) (holdings : list Holding) :
  (∀ i h data, fetchData fetchFund fetchStock i h = Fulfilled (Some data) →
               unusable (p_yesterdayPrice data) → unusable (p_currentPrice data)) →
  refreshMarketPrices fetchFund fetchStock
    (refreshMarketPrices fetchFund fetchStock holdings)
  = refreshMarketPrices fetchFund fetchStock holdings.
Proof.
  intros Hstable. apply list_eq. intros j.
  rewrite !refreshMarketPrices_lookup.
  destruct (holdings !! j) as [h|]; [|done]. cbn [fmap option_fmap option_map]. f_equal.
  set (h' := refreshOne fetchFund fetchStock j h).
  destruct (fetchData fetchFund fetchStock j h) as [[data|]|] eqn:Hd.
  - assert (h' = refreshed h data) as -> by (unfold h', refreshOne; by rewrite Hd).
    assert (fetchData fetchFund fetchStock j (refreshed h data) = Fulfilled (Some data)) as Hd'.
    { rewrite <- Hd. reflexivity. }
    unfold refreshOne. rewrite Hd'. unfold refreshed at 1.
    cbn [refreshed id name code type buyDate buyPrice quantity currentPrice
         yesterdayPrice priceDate].
    rewrite or_string_idem, or_number_idem, or_opt_string_idem.
    unfold refreshed. do 2 f_equal.
    destruct (p_yesterdayPrice data) as [v|] eqn:Ev.
    + cbn [JS.or_number]. destruct (JS.truthy_number v) eqn:Hv; [done|].
      apply JS_truthy_false in Hv.
      destruct (Hstable j h data Hd) as [-> | (c & -> & Hc)].
      * right. by exists v.
      * done.
      * cbn [JS.or_number]. by apply JS_truthy_false in Hc as ->.
    + cbn [JS.or_number].
      destruct (Hstable j h data Hd) as [-> | (c & -> & Hc)]; [by left | done |].
      cbn [JS.or_number]. by apply JS_truthy_false in Hc as ->.
  - assert (h' = h) as -> by (unfold h', refreshOne; by rewrite Hd).
    unfold refreshOne. by rewrite Hd.
  - assert (h' = h) as -> by (unfold h', refreshOne; by rewrite Hd).
    unfold refreshOne. by rewrite Hd.
Qed.

Lemma refresh_idempotent_witness :
  let fetch := Scenario.feed [Fulfilled (Some Scenario.negativeQuote)] in
  refreshMarketPrices fetch fetch (refreshMarketPrices fetch fetch [Scenario.held])
  = refreshMarketPrices fetch fetch [Scenario.held].
Proof.
  apply (refresh_idempotent
           (Scenario.feed [Fulfilled (Some Scenario.negativeQuote)])
           (Scenario.feed [Fulfilled (Some Scenario.negativeQuote)])
           [Scenario.held]).
  intros i h data Hd [Hy | (v & Hy & Hv)].
  - exfalso. unfold fetchData, Scenario.feed in Hd.
    destruct i as [|i]; destruct (type h); cbn in Hd; try discriminate;
      injection Hd as <-; discriminate.
  - exfalso. unfold fetchData, Scenario.feed in Hd.
    destruct i as [|i]; destruct (type h); cbn in Hd; try discriminate;
      injection Hd as <-; injection Hy as <-; discriminate.
Defined.

(** ** The merge-back of fresh prices after an add *)

Lemma finalMix_lookup refreshedItems currentHoldings i :
  finalMix refreshedItems currentHoldings !! i
  = (λ p, nth 0 (finalMix refreshedItems [p]) p) <$> currentHoldings !! i.
Proof.
  unfold finalMix. change (map ?f ?l) with (f <$> l).
  rewrite list_lookup_fmap. by destruct (currentHoldings !! i).
Qed.

(** X14.  The merge-back of refreshed items changes prices only.  For any
    list of refreshed items, [finalMix] keeps the length of the current
    list; at every position the [id], [code], [type], [buyDate], [buyPrice]
    and [quantity] are the current ones; a holding whose id is not among the
    refreshed items is kept as it is; and the total cost is the very same
    number.  In particular the merged quantities and average prices
    computed by [handleAddHoldings] survive the price fetch that follows. *)
Theorem finalMix_changes_prices_only (refreshedItems currentHoldings : list Holding) :
  let result := finalMix refreshedItems currentHoldings in
  length result = length currentHoldings ∧
  (∀ i p, currentHoldings !! i = Some p →
     ∃ p', result !! i = Some p' ∧
           id p' = id p ∧ code p' = code p ∧ type p' = type p ∧
           buyDate p' = buyDate p ∧ buyPrice p' = buyPrice p ∧
           quantity p' = quantity p ∧
           (id p ∉ id <$> refreshedItems → p' = p)) ∧
  totalCost (summary result) = totalCost (summary currentHoldings).
Proof.
  intros result. subst result. split_and!.
  - apply length_map.
  - intros i p Hi. rewrite finalMix_lookup, Hi. cbn [fmap option_fmap option_map].
    eexists. split; [reflexivity|]. cbn [finalMix map nth].
    destruct (list_find _ refreshedItems) as [[j fresh]|] eqn:F.
    + split_and!; try done. intros Hid. exfalso.
      apply list_find_Some in F as (Hj & E & _). apply Hid. rewrite <- E.
      apply list_elem_of_fmap_2. by eapply list_elem_of_lookup_2.
    + by split_and!.
  - cbn [summary totalCost]. apply cost_fold_same_basis.
    apply Forall2_map_r. intros p. by destruct (list_find _ refreshedItems) as [[j fresh]|].
Qed.

(** X15.  Refreshing everything and merging back.  With pairwise distinct
    ids, merging the refreshed version of the whole list back into the list
    gives the refreshed list itself: the add flow (refresh the affected
    items, then [finalMix]) and [handleRefresh] agree when every holding is
    affected. *)
Theorem finalMix_of_full_refresh
    (fetchFund fetchStock : nat → string → FetchOutcome) (holdings : list Holding) :
  uniqueIds holdings →
  finalMix (refreshMarketPrices fetchFund fetchStock holdings) holdings
  = refreshMarketPrices fetchFund fetchStock holdings.
Proof.
  intros Hnd. apply list_eq. intros i.
  rewrite finalMix_lookup, refreshMarketPrices_lookup.
  destruct (holdings !! i) as [p|] eqn:Hi; [|done].
  cbn [fmap option_fmap option_map]. f_equal. cbn [finalMix map nth].
  assert (list_find (λ f, id f = id p) (refreshMarketPrices fetchFund fetchStock holdings)
          = Some (i, refreshOne fetchFund fetchStock i p)) as ->.
  { apply list_find_Some. split_and!.
    - by rewrite refreshMarketPrices_lookup, Hi.
    - apply refreshOne_id.
    - intros j y Hj Hlt E. rewrite refreshMarketPrices_lookup in Hj.
      destruct (holdings !! j) as [q|] eqn:Hq; [|done].
      injection Hj as <-. rewrite refreshOne_id in E.
      assert (j = i); [|lia].
      eapply (NoDup_lookup _ _ _ (id p) Hnd); rewrite list_lookup_fmap.
      + by rewrite Hq, <- E.
      + by rewrite Hi. }
  unfold refreshOne. destruct (fetchData fetchFund fetchStock i p) as [[data|]|].
  - reflexivity.
  - by destruct p.
  - by destruct p.
Qed.

Lemma finalMix_of_full_refresh_witness :
  let fetch := Scenario.feed [Fulfilled (Some Scenario.negativeQuote); Rejected] in
  finalMix (refreshMarketPrices fetch fetch [Scenario.held; Scenario.other])
           [Scenario.held; Scenario.other]
  = refreshMarketPrices fetch fetch [Scenario.held; Scenario.other].
Proof.
  apply (finalMix_of_full_refresh
           (Scenario.feed [Fulfilled (Some Scenario.negativeQuote); Rejected])
           (Scenario.feed [Fulfilled (Some Scenario.negativeQuote); Rejected])
           [Scenario.held; Scenario.other]).
  unfold uniqueIds. apply (bool_decide_unpack _). vm_compute. exact I.
Defined.

(** ** The quote adapters *)

(** The fund adapter answers only for the requested fund.  A failed
    script load resolves with [null]; a record for the requested code
    resolves with a quote; a record for any other code leaves the promise
    unresolved.  So whenever [fetchFundData] resolves with a quote, the
    quote was computed from a record whose [fundcode] is the requested
    code. *)
Lemma fund_adapter_settles (parseFloat : string → JS.parsed) (code : string) :
  fetchFundData parseFloat code ScriptError = Some None ∧
  (∀ data, fundcode data = code →
           ∃ r, fetchFundData parseFloat code (ScriptCalls data) = Some (Some r) ∧
                p_name r = Some (fd_name data)) ∧
  (∀ data, fundcode data ≠ code →
           fetchFundData parseFloat code (ScriptCalls data) = None) ∧
  (∀ t r, fetchFundData parseFloat code t = Some (Some r) →
          ∃ data, t = ScriptCalls data ∧ fundcode data = code).
Proof.
  split_and!.
  - reflexivity.
  - intros data E. unfold fetchFundData, jsonpgz. rewrite decide_True by done.
    eexists. split; reflexivity.
  - intros data E. unfold fetchFundData, jsonpgz. by rewrite decide_False.
  - intros [|data] r H; [discriminate|]. exists data. split; [done|].
    unfold fetchFundData, jsonpgz in H. by case_decide.
Qed.

(** X16.  A fund quote merged into a holding.  Let [r] be the quote that
    the fund adapter computes from a record for the holding's code, and
    [h'] the record that the synchronizer writes for it.  If neither the
    estimate nor the net value gives a number (the estimate is not a
    positive number and the net value does not parse), [h'] keeps the prior
    [currentPrice], its [yesterdayPrice] is that price, and its day
    profit/loss is zero.  If the estimate is a positive number [est] and
    the net value a non-zero number [nav], then [h'] has
    [currentPrice = est], [yesterdayPrice = nav] and a day profit/loss of
    [(est - nav) * quantity]. *)
Theorem fund_quote_merged
    (parseFloat : string → JS.parsed) (h : Holding) (data : FundData) (r : PartialHolding) :
  jsonpgz parseFloat (code h) data = Some r →
  let h' := refreshed h r in
  (¬ (∃ est, parseFloat (gsz data) = Some est ∧ (0 < est)%Q) →
   parseFloat (dwjz data) = None →
   currentPrice h' = currentPrice h ∧
   yesterdayPrice h' = Some (currentPrice h) ∧
   (dayProfitLoss h' == 0)%Q) ∧
  (∀ est nav, parseFloat (gsz data) = Some est → (0 < est)%Q →
              parseFloat (dwjz data) = Some nav → ¬ (nav == 0)%Q →
              currentPrice h' = est ∧
              yesterdayPrice h' = Some nav ∧
              (dayProfitLoss h' == (est - nav) * quantity h)%Q).
Proof.
  intros Hr h'. subst h'. unfold jsonpgz in Hr. case_decide as Hc; [|done].
  injection Hr as <-. split.
  - intros Hno Hnav. rewrite Hnav.
    assert (negb (JS.isNaN (parseFloat (gsz data))) && JS.parsed_gt (parseFloat (gsz data)) 0
            = false) as ->.
    { destruct (parseFloat (gsz data)) as [est|] eqn:Hest; [|done].
      cbn [JS.isNaN JS.parsed_gt negb andb].
      destruct (JS.gt est 0) eqn:Hgt; [|done].
      exfalso. apply Hno. exists est. split; [done | by apply JS_gt_true]. }
    set (r := mkPartial _ _ _ _).
    assert (currentPrice (refreshed h r) = currentPrice h) as Ec by reflexivity.
    assert (yesterdayPrice (refreshed h r) = Some (currentPrice h)) as Ey by reflexivity.
    split_and!; [done | done |].
    rewrite dayProfitLoss_unfold, Ey, Ec.
    destruct (JS.truthy_number (currentPrice h)); [ring | reflexivity].
  - intros est nav Hest Hpos Hnav Hnz. rewrite Hest, Hnav.
    cbn [JS.isNaN JS.parsed_gt negb andb].
    apply JS_gt_true in Hpos as Hgt. rewrite Hgt.
    set (r := mkPartial _ _ _ _).
    assert (JS.truthy_number est = true) as Hest' by (apply JS_truthy_true; lra).
    apply JS_truthy_true in Hnz as Hnav'.
    assert (currentPrice (refreshed h r) = est) as Ec.
    { cbn [refreshed currentPrice r p_currentPrice nanToZero JS.or_number]. by rewrite Hest'. }
    assert (yesterdayPrice (refreshed h r) = Some nav) as Ey.
    { cbn [refreshed yesterdayPrice r p_yesterdayPrice nanToZero JS.or_number].
      by rewrite Hnav'. }
    split_and!; [done | done |].
    rewrite dayProfitLoss_unfold, Ey, Ec, Hnav'. cbn [refreshed quantity]. ring.
Qed.

Lemma fund_quote_merged_witness :
  ∃ r, jsonpgz Scenario.parseDecimal (code Scenario.held) Scenario.fullQuote = Some r ∧
       let h' := refreshed Scenario.held r in
       (¬ (∃ est, Scenario.parseDecimal "12" = Some est ∧ (0 < est)%Q) →
        Scenario.parseDecimal "11.5" = None →
        currentPrice h' = currentPrice Scenario.held ∧
        yesterdayPrice h' = Some (currentPrice Scenario.held) ∧
        (dayProfitLoss h' == 0)%Q) ∧
       (∀ est nav, Scenario.parseDecimal "12" = Some est → (0 < est)%Q →
                   Scenario.parseDecimal "11.5" = Some nav → ¬ (nav == 0)%Q →
                   currentPrice h' = est ∧
                   yesterdayPrice h' = Some nav ∧
                   (dayProfitLoss h' == (est - nav) * quantity Scenario.held)%Q).
Proof.
  eexists. split; [reflexivity|].
  apply (fund_quote_merged Scenario.parseDecimal Scenario.held Scenario.fullQuote).
  reflexivity.
Defined.

(** [split] gives one field more than there are separators, and joining
    the fields with the separator gives the string back. *)
Lemma split_length (sep : ascii) (s : string) :
  length (JS.split sep s) = S (occurrences sep s).
Proof.
  unfold JS.split. induction s as [|c rest IH]; [done|].
  cbn [JS.fields occurrences]. destruct (JS.fields sep rest) as [p ps].
  cbn [length] in IH. destruct (Ascii.eqb c sep); cbn [length]; lia.
Qed.

Lemma concat_cons2 (sep x y : string) (l : list string) :
  String.concat sep (x :: y :: l)
  = String.append x (String.append sep (String.concat sep (y :: l))).
Proof. reflexivity. Qed.

Lemma split_join (sep : ascii) (s : string) :
  String.concat (String sep EmptyString) (JS.split sep s) = s.
Proof.
  unfold JS.split. induction s as [|c rest IH]; [done|].
  cbn [JS.fields]. destruct (JS.fields sep rest) as [p ps].
  destruct (Ascii.eqb c sep) eqn:E.
  - apply Ascii.eqb_eq in E as ->. rewrite concat_cons2, IH. reflexivity.
  - destruct ps as [|q ps].
    + rewrite <- IH. reflexivity.
    + rewrite concat_cons2 in *. rewrite <- IH. reflexivity.
Qed.

(** X17.  What a stock quote contains.  Whenever [fetchStockData] returns
    a quote, the script was loaded and the variable for the code holds a
    record of at least 32 comma-separated fields; the quote's name is field
    0, its [yesterdayPrice] the number in field 2 (the previous close), its
    [priceDate] fields 30 and 31 joined by a blank; and its [currentPrice]
    is the number in field 3 when that is positive, and the previous close
    in every other case (field 3 zero, negative or not a number). *)
Theorem stock_quote_contents
    (parseFloat : string → JS.parsed) (loaded : bool)
    (window : string → option string) (code : string) (r : PartialHolding) :
  fetchStockData parseFloat loaded window code = Some r →
  ∃ dataStr,
    loaded = true ∧
    window (varName code) = Some dataStr ∧
    31 ≤ occurrences "," dataStr ∧
    let parts := JS.split "," dataStr in
    let prevClose := parseFloat (JS.at_ parts 2) in
    let current := parseFloat (JS.at_ parts 3) in
    p_name r = Some (JS.at_ parts 0) ∧
    p_yesterdayPrice r = prevClose ∧
    p_priceDate r = Some (String.append (JS.at_ parts 30)
                            (String.append " " (JS.at_ parts 31))) ∧
    (∀ c, current = Some c → (0 < c)%Q → p_currentPrice r = Some c) ∧
    (¬ (∃ c, current = Some c ∧ (0 < c)%Q) → p_currentPrice r = prevClose).
Proof.
  unfold fetchStockData. intros H.
  destruct loaded; [|done].
  destruct (window (varName code)) as [dataStr|] eqn:Hw; [|done].
  destruct (JS.truthy_string dataStr); [|done].
  destruct (Nat.ltb 31 (length (JS.split "," dataStr))) eqn:Hlen; [|done].
  apply Nat.ltb_lt in Hlen. rewrite split_length in Hlen.
  injection H as <-. exists dataStr.
  split; [done|]. split; [done|]. split; [lia|].
  cbv zeta. cbn [p_name p_yesterdayPrice p_priceDate p_currentPrice].
  split_and!; [done | done | done | |].
  - intros c -> Hpos. cbn [JS.parsed_gt]. by apply JS_gt_true in Hpos as ->.
  - intros Hno. destruct (parseFloat (JS.at_ (JS.split "," dataStr) 3)) as [c|]; [|done].
    cbn [JS.parsed_gt]. destruct (JS.gt c 0) eqn:Hgt; [|done].
    exfalso. apply Hno. exists c. split; [done | by apply JS_gt_true].
Qed.

(** X18.  When the stock adapter has no data.  [fetchStockData] returns
    [null] exactly when the script failed to load, or the variable for the
    code is undefined or the empty string, or its record has fewer than 31
    commas (fewer than 32 fields); it never throws. *)
Theorem stock_adapter_no_data
    (parseFloat : string → JS.parsed) (loaded : bool)
    (window : string → option string) (code : string) :
  fetchStockData parseFloat loaded window code = None ↔
  loaded = false ∨
  window (varName code) = None ∨
  window (varName code) = Some "" ∨
  (∃ dataStr, window (varName code) = Some dataStr ∧ occurrences "," dataStr < 31).
Proof.
  unfold fetchStockData. destruct loaded.
  2:{ split; [by left | done]. }
  destruct (window (varName code)) as [dataStr|] eqn:Hw.
  2:{ split; [by right; left | done]. }
  destruct (JS.truthy_string dataStr) eqn:Ht.
  - destruct (Nat.ltb 31 (length (JS.split "," dataStr))) eqn:Hlen.
    + apply Nat.ltb_lt in Hlen. rewrite split_length in Hlen. split; [done|].
      intros [|[|[E|(d & E & Hd)]]]; try done.
      * injection E as ->. discriminate.
      * injection E as <-. lia.
    + apply Nat.ltb_ge in Hlen. rewrite split_length in Hlen. split; [|done].
      intros _. do 3 right. exists dataStr. split; [done | lia].
  - split; [|done]. intros _. right. right. left. f_equal.
    unfold JS.truthy_string in Ht. apply negb_false_iff in Ht. by apply String.eqb_eq.
Qed.

(** X19.  A stock quote merged into a holding.  Let [r] be the quote that
    the stock adapter returns for the holding [h] from the record
    [dataStr], let [current] be the number in field 3 and [prevClose] the
    number in field 2, and let [h'] be the record that the synchronizer
    writes.  When field 3 has no positive price: with a non-zero previous
    close [pc] the holding shows [currentPrice = yesterdayPrice = pc]; with
    a previous close that is zero or not a number it keeps its
    [currentPrice], which also becomes its [yesterdayPrice]; either way its
    day profit/loss is zero.  When field 3 has the positive price [c] and
    the previous close is the non-zero number [pc], the holding shows
    [currentPrice = c], [yesterdayPrice = pc] and a day profit/loss of
    [(c - pc) * quantity]. *)
Theorem stock_quote_merged
    (parseFloat : string → JS.parsed) (loaded : bool)
    (window : string → option string) (h : Holding) (r : PartialHolding)
    (dataStr : string) :
  fetchStockData parseFloat loaded window (code h) = Some r →
  window (varName (code h)) = Some dataStr →
  let parts := JS.split "," dataStr in
  let prevClose := parseFloat (JS.at_ parts 2) in
  let current := parseFloat (JS.at_ parts 3) in
  let h' := refreshed h r in
  (¬ (∃ c, current = Some c ∧ (0 < c)%Q) →
   (∀ pc, prevClose = Some pc → ¬ (pc == 0)%Q →
          currentPrice h' = pc ∧ yesterdayPrice h' = Some pc) ∧
   (unusable prevClose →
    currentPrice h' = currentPrice h ∧ yesterdayPrice h' = Some (currentPrice h)) ∧
   (dayProfitLoss h' == 0)%Q) ∧
  (∀ c pc, current = Some c → (0 < c)%Q → prevClose = Some pc → ¬ (pc == 0)%Q →
           currentPrice h' = c ∧ yesterdayPrice h' = Some pc ∧
           (dayProfitLoss h' == (c - pc) * quantity h)%Q).
Proof.
  intros Hr Hw parts prevClose current h'. subst h' parts.
  unfold fetchStockData in Hr. destruct loaded; [|done]. rewrite Hw in Hr.
  destruct (JS.truthy_string dataStr); [|done].
  destruct (Nat.ltb 31 (length (JS.split "," dataStr))); [|done].
  injection Hr as <-. fold prevClose current.
  set (r := mkPartial _ _ _ _).
  assert (p_currentPrice r = if JS.parsed_gt current 0 then current else prevClose) as Ec
    by reflexivity.
  assert (p_yesterdayPrice r = prevClose) as Ey by reflexivity.
  clearbody r. split.
  - intros Hno.
    assert (JS.parsed_gt current 0 = false) as Hgt.
    { destruct current as [c|]; [|done]. cbn [JS.parsed_gt].
      destruct (JS.gt c 0) eqn:Hc; [|done].
      exfalso. apply Hno. exists c. split; [done | by apply JS_gt_true]. }
    rewrite Hgt in Ec.
    assert (∀ pc, prevClose = Some pc → ¬ (pc == 0)%Q →
                  currentPrice (refreshed h r) = pc ∧
                  yesterdayPrice (refreshed h r) = Some pc) as Hpc.
    { intros pc Hp Hnz. cbn [refreshed currentPrice yesterdayPrice]. rewrite Ec, Ey, Hp.
      cbn [JS.or_number]. by apply JS_truthy_true in Hnz as ->. }
    assert (unusable prevClose →
            currentPrice (refreshed h r) = currentPrice h ∧
            yesterdayPrice (refreshed h r) = Some (currentPrice h)) as Hun.
    { intros Hu. cbn [refreshed currentPrice yesterdayPrice]. rewrite Ec, Ey.
      destruct Hu as [-> | (v & -> & Hz)]; [done|].
      cbn [JS.or_number]. by apply JS_truthy_false in Hz as ->. }
    split_and!; [done | done |].
    rewrite dayProfitLoss_unfold.
    destruct prevClose as [pc|] eqn:Hp.
    + destruct (Qeq_dec pc 0) as [Hz|Hnz].
      * destruct Hun as [-> ->]; [right; by exists pc|].
        destruct (JS.truthy_number (currentPrice h)); [ring | reflexivity].
      * destruct (Hpc pc eq_refl Hnz) as [-> ->].
        destruct (JS.truthy_number pc); [ring | reflexivity].
    + destruct Hun as [-> ->]; [by left|].
      destruct (JS.truthy_number (currentPrice h)); [ring | reflexivity].
  - intros c pc Hc Hpos Hp Hnz.
    assert (JS.truthy_number c = true) as Hc' by (apply JS_truthy_true; lra).
    apply JS_truthy_true in Hnz as Hpc'.
    assert (currentPrice (refreshed h r) = c) as E1.
    { cbn [refreshed currentPrice]. rewrite Ec, Hc. cbn [JS.parsed_gt].
      apply JS_gt_true in Hpos as ->. cbn [JS.or_number]. by rewrite Hc'. }
    assert (yesterdayPrice (refreshed h r) = Some pc) as E2.
    { cbn [refreshed yesterdayPrice]. rewrite Ey, Hp. cbn [JS.or_number]. by rewrite Hpc'. }
    split_and!; [done | done |].
    rewrite dayProfitLoss_unfold, E2, E1, Hpc'. cbn [refreshed quantity]. ring.
Qed.

Lemma stock_quote_contents_witness :
  ∃ r, fetchStockData Scenario.parseDecimal true Scenario.stockWindow "600519" = Some r ∧
  ∃ dataStr,
    true = true ∧
    Scenario.stockWindow (varName "600519") = Some dataStr ∧
    31 ≤ occurrences "," dataStr ∧
    let parts := JS.split "," dataStr in
    let prevClose := Scenario.parseDecimal (JS.at_ parts 2) in
    let current := Scenario.parseDecimal (JS.at_ parts 3) in
    p_name r = Some (JS.at_ parts 0) ∧
    p_yesterdayPrice r = prevClose ∧
    p_priceDate r = Some (String.append (JS.at_ parts 30)
                            (String.append " " (JS.at_ parts 31))) ∧
    (∀ c, current = Some c → (0 < c)%Q → p_currentPrice r = Some c) ∧
    (¬ (∃ c, current = Some c ∧ (0 < c)%Q) → p_currentPrice r = prevClose).
Proof.
  eexists. split; [reflexivity|].
  apply (stock_quote_contents Scenario.parseDecimal true Scenario.stockWindow "600519").
  reflexivity.
Defined.

Lemma stock_quote_merged_witness :
  ∃ r, fetchStockData Scenario.parseDecimal true Scenario.stockWindow
         (code Scenario.other) = Some r ∧
  let parts := JS.split "," Scenario.stockRecord in
  let prevClose := Scenario.parseDecimal (JS.at_ parts 2) in
  let current := Scenario.parseDecimal (JS.at_ parts 3) in
  let h' := refreshed Scenario.other r in
  (¬ (∃ c, current = Some c ∧ (0 < c)%Q) →
   (∀ pc, prevClose = Some pc → ¬ (pc == 0)%Q →
          currentPrice h' = pc ∧ yesterdayPrice h' = Some pc) ∧
   (unusable prevClose →
    currentPrice h' = currentPrice Scenario.other ∧
    yesterdayPrice h' = Some (currentPrice Scenario.other)) ∧
   (dayProfitLoss h' == 0)%Q) ∧
  (∀ c pc, current = Some c → (0 < c)%Q → prevClose = Some pc → ¬ (pc == 0)%Q →
           currentPrice h' = c ∧ yesterdayPrice h' = Some pc ∧
           (dayProfitLoss h' == (c - pc) * quantity Scenario.other)%Q).
Proof.
  eexists. split; [reflexivity|].
  apply (stock_quote_merged Scenario.parseDecimal true Scenario.stockWindow Scenario.other
           _ Scenario.stockRecord).
  - reflexivity.
  - reflexivity.
Defined.

(** In the scenario field 3 is [0], so the first case applies: the holding
    ends at the previous close [1490] with a day profit/loss of zero. *)
Example stock_scenario_merged :
  ∃ r, fetchStockData Scenario.parseDecimal true Scenario.stockWindow
         (code Scenario.other) = Some r ∧
       ¬ (∃ c, Scenario.parseDecimal (JS.at_ (JS.split "," Scenario.stockRecord) 3) = Some c
               ∧ (0 < c)%Q) ∧
       currentPrice (refreshed Scenario.other r) = (1490 # 1)%Q ∧
       yesterdayPrice (refreshed Scenario.other r) = Some (1490 # 1)%Q ∧
       (dayProfitLoss (refreshed Scenario.other r) == 0)%Q.
Proof.
  eexists. split; [reflexivity|]. split_and!; try reflexivity.
  intros (c & Hc & Hpos). vm_compute in Hc. injection Hc as <-. by vm_compute in Hpos.
Qed.

Example stock_scenario :
  ∃ r, fetchStockData Scenario.parseDecimal true Scenario.stockWindow "600519" = Some r ∧
       p_name r = Some "KM" ∧
       p_currentPrice r = Some (1490 # 1)%Q ∧
       p_yesterdayPrice r = Some (1490 # 1)%Q ∧
       p_priceDate r = Some "2024-03-04 15:00:00".
Proof. eexists. split; [reflexivity|]. by vm_compute. Qed.

(** ** More on the profit sharing calculator *)

Local Open Scope Q_scope.





Local Close Scope Q_scope.

(** ** The batch import *)

Section BatchImport.
Import AddAssetForm.

Variable parseFloat : string → JS.parsed.
Variable uuidv4 : nat → string.
Variable today : string.

Lemma truthy_string_true (s : string) : JS.truthy_string s = true ↔ s ≠ "".
Proof. unfold JS.truthy_string. rewrite negb_true_iff. apply String.eqb_neq. Qed.

Lemma truthy_string_false (s : string) : JS.truthy_string s = false ↔ s = "".
Proof. unfold JS.truthy_string. rewrite negb_false_iff. apply String.eqb_eq. Qed.

Lemma batchLine_invalid acc parts :
  ¬ validRow parseFloat parts → batchLine parseFloat uuidv4 today acc parts = acc.
Proof.
  intros Hv. unfold batchLine.
  destruct (Nat.leb 4 (length parts)) eqn:Hlen; [|done].
  apply Nat.leb_le in Hlen.
  destruct (parseFloat (JS.at_ parts 2)) as [price|] eqn:Hp; [|done].
  destruct (parseFloat (JS.at_ parts 3)) as [qty|] eqn:Hq; [|done].
  destruct (JS.truthy_string (JS.at_ parts 1)) eqn:Hc; [|done].
  exfalso. apply Hv. unfold validRow. rewrite Hp, Hq.
  split_and!; [done | by apply truthy_string_true | done | done].
Qed.

Lemma batchLine_valid acc parts :
  validRow parseFloat parts →
  ∃ h, batchLine parseFloat uuidv4 today acc parts = acc ++ [h] ∧
       id h = uuidv4 (length acc) ∧ imported today h.
Proof.
  intros (Hlen & Hc & [price Hp] & [qty Hq]). unfold batchLine.
  apply Nat.leb_le in Hlen. rewrite Hlen, Hp, Hq.
  apply truthy_string_true in Hc as Hc'. rewrite Hc'.
  eexists. split; [reflexivity|]. split; [reflexivity|].
  unfold imported. cbn [code name type currentPrice buyPrice buyDate yesterdayPrice priceDate].
  split_and!; try done.
  destruct (JS.truthy_string (JS.at_ parts 0)) eqn:Hn; [|done].
  by apply truthy_string_true.
Qed.

Lemma validRow_dec parts : validRow parseFloat parts ∨ ¬ validRow parseFloat parts.
Proof.
  unfold validRow.
  destruct (decide (4 ≤ length parts)); [|right; tauto].
  destruct (decide (JS.at_ parts 1 = "")); [right; tauto|].
  destruct (parseFloat (JS.at_ parts 2)); [|right; intros (_ & _ & [] & _); done].
  destruct (parseFloat (JS.at_ parts 3)); [|right; intros (_ & _ & _ & []); done].
  left. split_and!; done.
Qed.

(** The array after all lines: its new part is made of imported entries
    with consecutive ids, one per valid line. *)
Lemma batch_fold lines acc :
  ∃ new, fold_left (batchLine parseFloat uuidv4 today) lines acc = acc ++ new ∧
         length new ≤ length lines ∧
         (new = [] ↔ Forall (λ parts, ¬ validRow parseFloat parts) lines) ∧
         ∀ j h, new !! j = Some h → id h = uuidv4 (length acc + j) ∧ imported today h.
Proof.
  revert acc. induction lines as [|parts lines IH]; intros acc.
  - exists []. cbn [fold_left]. rewrite app_nil_r. split_and!; [done | done | done | done].
  - cbn [fold_left]. destruct (validRow_dec parts) as [Hv|Hv].
    + destruct (batchLine_valid acc parts Hv) as (h & -> & Hid & Himp).
      destruct (IH (acc ++ [h])) as (new & -> & Hlen & _ & Hall).
      exists (h :: new). split_and!.
      * by rewrite <- app_assoc.
      * cbn [length]. lia.
      * split; [done|]. intros [Hn _]%Forall_cons. done.
      * intros [|j] h' Hj.
        -- injection Hj as <-. by rewrite Nat.add_0_r.
        -- destruct (Hall j h' Hj) as [E ?]. split; [|done].
           rewrite E, length_app. cbn [length]. f_equal. lia.
    + rewrite (batchLine_invalid acc parts Hv).
      destruct (IH acc) as (new & -> & Hlen & Hnil & Hall).
      exists new. split_and!; [done | cbn [length]; lia | | done].
      rewrite Hnil. split; [by constructor | by intros [_ ?]%Forall_cons].
Qed.

End BatchImport.

(** X22.  What the batch import hands to the merge engine.  Whenever
    [handleBatchSubmit] calls [onAdd], the list is not empty and has at
    most one entry per line; the [j]-th entry has the [j]-th generated id,
    a non-empty [code], a non-empty [name], type [FUND], [currentPrice]
    equal to [buyPrice], today's [buyDate] and no [yesterdayPrice] or
    [priceDate]. *)
Theorem batch_import_entries
    (parseFloat : string → JS.parsed) (uuidv4 : nat → string) (today : string)
    (lines : list (list string)) (newHoldings : list Holding) :
  AddAssetForm.handleBatchSubmit parseFloat uuidv4 today lines
    = AddAssetForm.OnAdd newHoldings →
  newHoldings ≠ [] ∧
  length newHoldings ≤ length lines ∧
  ∀ j h, newHoldings !! j = Some h →
         id h = uuidv4 j ∧ code h ≠ "" ∧ name h ≠ "" ∧ type h = FUND ∧
         currentPrice h = buyPrice h ∧ buyDate h = today ∧
         yesterdayPrice h = None ∧ priceDate h = None.
Proof.
  unfold AddAssetForm.handleBatchSubmit.
  destruct (batch_fold parseFloat uuidv4 today lines []) as (new & -> & Hlen & _ & Hall).
  cbn [app]. destruct (Nat.ltb 0 (length new)) eqn:Hpos; [|done].
  intros [= <-]. apply Nat.ltb_lt in Hpos. split_and!.
  - intros ->. cbn in Hpos. lia.
  - done.
  - intros j h Hj. destruct (Hall j h Hj) as [Hid Himp]. split; [done|]. exact Himp.
Qed.

Lemma batch_import_entries_witness :
  let lines := [["Fund A"; "161725"; "10"; "100"]; ["broken"; "row"]; [""; "000001"; "1.5"; "20"]] in
  ∃ newHoldings,
    AddAssetForm.handleBatchSubmit Scenario.parseDecimal Scenario.uuid
      "2024-03-04" lines = AddAssetForm.OnAdd newHoldings ∧
    newHoldings ≠ [] ∧
    length newHoldings ≤ length lines ∧
    ∀ j h, newHoldings !! j = Some h →
           id h = Scenario.uuid j ∧ code h ≠ "" ∧ name h ≠ "" ∧
           type h = FUND ∧ currentPrice h = buyPrice h ∧ buyDate h = "2024-03-04" ∧
           yesterdayPrice h = None ∧ priceDate h = None.
Proof.
  eexists. split; [reflexivity|].
  apply (batch_import_entries Scenario.parseDecimal Scenario.uuid "2024-03-04"
           [["Fund A"; "161725"; "10"; "100"]; ["broken"; "row"]; [""; "000001"; "1.5"; "20"]]).
  reflexivity.
Defined.

(** X23.  Lines that do not yield a holding are skipped without a trace.
    A line with fewer than four fields, an empty code, or a price or
    quantity that is not a number does not change what the batch import
    produces from the other lines; and the import raises the alert instead
    of calling [onAdd] exactly when no line is valid. *)
Theorem batch_skips_invalid_lines
    (parseFloat : string → JS.parsed) (uuidv4 : nat → string) (today : string) :
  (∀ before parts after,
     ¬ validRow parseFloat parts →
     AddAssetForm.handleBatchSubmit parseFloat uuidv4 today (before ++ parts :: after)
     = AddAssetForm.handleBatchSubmit parseFloat uuidv4 today (before ++ after)) ∧
  (∀ lines,
     AddAssetForm.handleBatchSubmit parseFloat uuidv4 today lines = AddAssetForm.Alert
     ↔ Forall (λ parts, ¬ validRow parseFloat parts) lines).
Proof.
  split.
  - intros before parts after Hv. unfold AddAssetForm.handleBatchSubmit.
    rewrite !fold_left_app. cbn [fold_left]. by rewrite batchLine_invalid.
  - intros lines. unfold AddAssetForm.handleBatchSubmit.
    destruct (batch_fold parseFloat uuidv4 today lines []) as (new & -> & _ & Hnil & _).
    cbn [app]. rewrite <- Hnil. destruct new as [|h new]; cbn; split; done.
Qed.

(** ** Sorting, the holdings table and the charts *)

Section SortFacts.
Context {A : Type}.

(** The comparator orders by a value [w], ascending: [compare a b > 0]
    exactly when [b] has the smaller value. *)
Variable compare : A → A → Q.
Variable w : A → Q.
Hypothesis compare_spec : ∀ a b, JS.gt (compare a b) 0 = true ↔ (w b < w a)%Q.

Lemma sortInsert_perm a l : JS.sortInsert compare a l ≡ₚ a :: l.
Proof.
  induction l as [|b l IH]; [done|]. cbn [JS.sortInsert].
  destruct (JS.gt (compare a b) 0); [|done].
  rewrite IH. apply perm_swap.
Qed.

Lemma sort_perm l : JS.sort compare l ≡ₚ l.
Proof.
  induction l as [|a l IH]; [done|]. cbn [JS.sort].
  by rewrite sortInsert_perm, IH.
Qed.

Lemma sortInsert_sorted a l :
  StronglySorted (λ x y, (w x <= w y)%Q) l →
  StronglySorted (λ x y, (w x <= w y)%Q) (JS.sortInsert compare a l).
Proof.
  induction 1 as [|b l Hs IH Hb]; cbn [JS.sortInsert].
  - repeat constructor.
  - destruct (JS.gt (compare a b) 0) eqn:Hgt.
    + apply compare_spec in Hgt. constructor; [done|].
      rewrite sortInsert_perm. constructor; [lra | done].
    + assert (w a <= w b)%Q as Hab.
      { destruct (Qlt_le_dec (w b) (w a)) as [Hlt|]; [|done].
        apply compare_spec in Hlt. congruence. }
      constructor; [by constructor|]. constructor; [done|].
      eapply Forall_impl; [exact Hb|]. intros y Hy. cbv beta in *. lra.
Qed.

Lemma sort_sorted l : StronglySorted (λ x y, (w x <= w y)%Q) (JS.sort compare l).
Proof.
  induction l as [|a l IH]; cbn [JS.sort]; [constructor|].
  by apply sortInsert_sorted.
Qed.

(** Sorting keeps a sorted list as it is: ties are never reordered. *)
Lemma sort_of_sorted l :
  StronglySorted (λ x y, (w x <= w y)%Q) l → JS.sort compare l = l.
Proof.
  induction 1 as [|a l Hs IH Ha]; [done|]. cbn [JS.sort]. rewrite IH.
  destruct l as [|b l]; [done|]. cbn [JS.sortInsert].
  apply Forall_cons in Ha as [Hab _].
  destruct (JS.gt (compare a b) 0) eqn:Hgt; [|done].
  apply compare_spec in Hgt. lra.
Qed.

End SortFacts.

Lemma StronglySorted_weaken {A} (R1 R2 : A → A → Prop) (l : list A) :
  (∀ a b, R1 a b → R2 a b) → StronglySorted R1 l → StronglySorted R2 l.
Proof.
  intros H. induction 1 as [|a l _ IH Ha]; constructor; [done|].
  eapply Forall_impl; [exact Ha|]. intros b. apply H.
Qed.

Lemma table_compare_asc (field : HoldingsTable.SortField) (a b : Holding) :
  JS.gt (HoldingsTable.compare (HoldingsTable.mkSort field HoldingsTable.asc) a b) 0 = true
  ↔ (HoldingsTable.sortValue field b < HoldingsTable.sortValue field a)%Q.
Proof. rewrite JS_gt_true. unfold HoldingsTable.compare. cbn. split; lra. Qed.

Lemma table_compare_desc (field : HoldingsTable.SortField) (a b : Holding) :
  JS.gt (HoldingsTable.compare (HoldingsTable.mkSort field HoldingsTable.desc) a b) 0 = true
  ↔ (- HoldingsTable.sortValue field b < - HoldingsTable.sortValue field a)%Q.
Proof. rewrite JS_gt_true. unfold HoldingsTable.compare. cbn. split; lra. Qed.

(** X24.  The rows of the holdings table.  For every filter, sort field
    and sort order, the rows are a rearrangement of the holdings of the
    selected type (all holdings for ['ALL']): none is dropped, duplicated
    or invented.  They are ordered by the value of the sort field,
    non-decreasing for ['asc'] and non-increasing for ['desc'].  Sorting
    rows that are already in that order changes nothing. *)
Theorem table_rows_sorted
    (filterType : option AssetType) (st : HoldingsTable.SortState)
    (holdings : list Holding) :
  let rows := HoldingsTable.sorted filterType st holdings in
  let v := HoldingsTable.sortValue (HoldingsTable.sortField st) in
  let ordered := λ a b, match HoldingsTable.sortOrder st with
                        | HoldingsTable.asc => (v a <= v b)%Q
                        | HoldingsTable.desc => (v b <= v a)%Q
                        end in
  rows ≡ₚ HoldingsTable.filtered filterType holdings ∧
  (∀ h, h ∈ rows ↔ h ∈ holdings ∧ (filterType = None ∨ filterType = Some (type h))) ∧
  StronglySorted ordered rows ∧
  JS.sort (HoldingsTable.compare st) rows = rows.
Proof.
  intros rows v ordered. subst rows v ordered. unfold HoldingsTable.sorted.
  destruct st as [field order]. cbn [HoldingsTable.sortField HoldingsTable.sortOrder].
  assert (JS.sort (HoldingsTable.compare (HoldingsTable.mkSort field order))
            (HoldingsTable.filtered filterType holdings)
          ≡ₚ HoldingsTable.filtered filterType holdings) as Hperm.
  { destruct order.
    - apply (sort_perm _).
    - apply (sort_perm _). }
  split_and!.
  - exact Hperm.
  - intros h. rewrite Hperm. unfold HoldingsTable.filtered.
    rewrite list_elem_of_filter. split.
    + intros [[->|E] Hin]; [by split; [|left] | split; [done | by right]].
    + intros [Hin [->|E]]; [by split; [left|] | split; [by right | done]].
  - destruct order.
    + apply (sort_sorted _ _ (table_compare_asc field)).
    + eapply StronglySorted_weaken; [|apply (sort_sorted _ _ (table_compare_desc field))].
      intros a b Hab. cbv beta in *. lra.
  - destruct order.
    + apply (sort_of_sorted _ _ (table_compare_asc field)),
        (sort_sorted _ _ (table_compare_asc field)).
    + apply (sort_of_sorted _ _ (table_compare_desc field)),
        (sort_sorted _ _ (table_compare_desc field)).
Qed.

(** X25.  Clicking a column header.  After [handleSort(field)] the table
    is sorted by [field]; a field that was not the sort field starts in
    descending order; clicking the current sort field flips the order, so
    that two clicks on it restore the state. *)
Theorem handleSort_toggles (st : HoldingsTable.SortState) (field : HoldingsTable.SortField) :
  HoldingsTable.sortField (HoldingsTable.handleSort st field) = field ∧
  (HoldingsTable.sortField st ≠ field →
   HoldingsTable.sortOrder (HoldingsTable.handleSort st field) = HoldingsTable.desc) ∧
  (HoldingsTable.sortField st = field →
   HoldingsTable.sortOrder (HoldingsTable.handleSort st field) ≠ HoldingsTable.sortOrder st ∧
   HoldingsTable.handleSort (HoldingsTable.handleSort st field) field = st).
Proof.
  destruct st as [f o]. unfold HoldingsTable.handleSort.
  cbn [HoldingsTable.sortField HoldingsTable.sortOrder].
  destruct (decide (f = field)) as [->|Hne].
  - cbn [HoldingsTable.sortField HoldingsTable.sortOrder].
    rewrite decide_True by done. split_and!; [done | done |].
    intros _. by destruct o.
  - split_and!; [done | done | done].
Qed.

Lemma byAbsProfitLoss_spec (a b : Holding) :
  JS.gt (byAbsProfitLoss a b) 0 = true
  ↔ (- Qabs (profitLoss b) < - Qabs (profitLoss a))%Q.
Proof. rewrite JS_gt_true. unfold byAbsProfitLoss. split; lra. Qed.

(** X26.  The bar chart shows the largest profits and losses.  [barData]
    has one bar per shown holding, [min 8 n] bars for [n] holdings, in
    non-increasing order of [|profit/loss|]; the shown holdings together
    with the omitted ones are a rearrangement of the portfolio, and no
    omitted holding has a larger [|profit/loss|] than a shown one. *)
Theorem bar_chart_top_eight (holdings : list Holding) :
  let shown := barHoldings holdings in
  barData holdings = (λ h, (name h, profitLoss h)) <$> shown ∧
  length (barData holdings) = min 8 (length holdings) ∧
  StronglySorted (λ a b, (Qabs (profitLoss b) <= Qabs (profitLoss a))%Q) shown ∧
  ∃ omitted,
    shown ++ omitted ≡ₚ holdings ∧
    ∀ a b, a ∈ shown → b ∈ omitted →
           (Qabs (profitLoss b) <= Qabs (profitLoss a))%Q.
Proof.
  intros shown. subst shown. unfold barData, barHoldings.
  pose proof (sort_sorted _ _ byAbsProfitLoss_spec holdings) as Hs.
  pose proof (sort_perm byAbsProfitLoss holdings) as Hp.
  set (s := JS.sort byAbsProfitLoss holdings) in *.
  rewrite <- (take_drop 8 s) in Hs.
  split_and!.
  - reflexivity.
  - rewrite length_map, length_take. by rewrite Hp.
  - apply StronglySorted_app_1_l in Hs.
    eapply StronglySorted_weaken; [|exact Hs]. intros a b Hab. cbv beta in *. lra.
  - exists (drop 8 s). split; [by rewrite take_drop|].
    intros a b Ha Hb.
    pose proof (StronglySorted_app_1_elem_of _ _ _ a b Hs Ha Hb) as Hab.
    cbv beta in Hab. lra.
Qed.

Lemma pieData_cons (h : Holding) (l : list Holding) :
  pieData (h :: l) =
    if JS.gt (currentPrice h * quantity h) 0
    then (name h, (currentPrice h * quantity h)%Q) :: pieData l
    else pieData l.
Proof.
  unfold pieData. cbn [map]. rewrite filter_cons.
  destruct (decide _) as [D|D]; cbn [snd] in D.
  - by rewrite D.
  - by destruct (JS.gt _ _).
Qed.

(** X27.  The pie chart and the summary agree.  [pieData] has a slice only
    for a holding with a positive market value, and every slice is
    positive.  If no holding has a negative market value, the slices add up
    to [totalMarketValue]. *)
Theorem pie_chart_total (holdings : list Holding) :
  Forall (λ d, (0 < d.2)%Q) (pieData holdings) ∧
  length (pieData holdings) ≤ length holdings ∧
  (Forall (λ h, (0 <= currentPrice h * quantity h)%Q) holdings →
   (sumOf snd (pieData holdings) == totalMarketValue (summary holdings))%Q).
Proof.
  split_and!.
  - induction holdings as [|h l IH]; [constructor|]. rewrite pieData_cons.
    destruct (JS.gt _ _) eqn:E; [|done].
    constructor; [|done]. by apply JS_gt_true.
  - induction holdings as [|h l IH]; [done|]. rewrite pieData_cons.
    destruct (JS.gt _ _); cbn [length]; lia.
  - intros Hall. rewrite totalMarketValue_sum.
    induction Hall as [|h l Hh _ IH]; [reflexivity|].
    rewrite pieData_cons, sumOf_cons. unfold value at 1.
    destruct (JS.gt _ _) eqn:E.
    + rewrite sumOf_cons, IH. reflexivity.
    + apply JS_gt_false in E. rewrite IH. lra.
Qed.
